(** * githubservice: aggregation and classification over the GitHub API

    A shallow embedding of [githubservice/githubservice.go].  The GitHub
    client is an external collaborator: it is modelled as a record of
    response functions ([Client]), every call the service makes is logged
    in a trace, and the unbounded [for { ... }] page loops take fuel.

    Conventions of the embedding:
    - Go slices are lists; a nil slice and an empty slice are both [[]].
    - Pointer fields of the go-github structs that the service
      dereferences without a check ([*commit.SHA], [*repo.Name],
      [*pullRequest.CreatedAt], ...) are taken as present.
    - [time.Time] and [time.Duration] are integers counting nanoseconds;
      [Duration.Hours] is the exact quotient (a rational), the rounding of
      the float64 the Go code compares is not modelled.
    - Go's [int] is [Z]: the integers here are day counts, page numbers
      and lengths, far from the bounds of 64 bits.
    - Strings are sequences of bytes; [strings.ToLower] is modelled on
      ASCII. *)

From Stdlib Require Import ZArith QArith Ascii String List Sorting.Sorted Permutation Lia Bool.
From Stdlib Require OrderedTypeEx.
From stdpp Require Import base option list gmap strings.

Local Open Scope string_scope.
Local Open Scope list_scope.
Local Open Scope Z_scope.

(* ------------------------------------------------------------------ *)
(** ** Library functions the service calls *)

Module strings.

(** [strings.ToLower] on the ASCII range: 'A'..'Z' are mapped to
    'a'..'z', every other byte is kept. *)
Definition lowerByte (c : ascii) : ascii :=
  let n := nat_of_ascii c in
  if (65 <=? n)%nat && (n <=? 90)%nat then ascii_of_nat (n + 32) else c.

Fixpoint ToLower (s : string) : string :=
  match s with
  | EmptyString => EmptyString
  | String c s' => String (lowerByte c) (ToLower s')
  end.

(** [strings.Contains s substr]: [substr] occurs in [s] at some offset. *)
Fixpoint Contains (s substr : string) : bool :=
  String.prefix substr s ||
  match s with
  | EmptyString => false
  | String _ s' => Contains s' substr
  end.

End strings.

Module time.

Definition Time := Z.
Definition Duration := Z.

Definition Nanosecond : Duration := 1.
Definition Hour : Duration := 3600000000000.

(** [t.After(u)], [t.Before(u)], [t.Sub(u)]. *)
Definition After (t u : Time) : bool := u <? t.
Definition Before (t u : Time) : bool := t <? u.
Definition Sub (t u : Time) : Duration := t - u.

(** [time.Since(t)], the clock reading [now] made explicit. *)
Definition Since (now t : Time) : Duration := Sub now t.

(** [d.Hours()], as an exact rational. *)
Definition Hours (d : Duration) : Q := d # 3600000000000.

(** [t.AddDate(0, 0, days)] in a location without clock changes. *)
Definition AddDate (t : Time) (years months days : Z) : Time :=
  match years, months with
  | 0, 0 => t + days * (24 * Hour)
  | _, _ => t
  end.

End time.

(* ------------------------------------------------------------------ *)
(** ** Data model (the go-github structs, restricted to the fields read) *)

Definition error := string.

Record Label := { Label_Name : string }.

Record Issue := {
  Issue_Number : Z;
  Issue_Labels : option (list Label)   (* [None] is the nil slice *)
}.

Record Repository := {
  Repository_Name : string;
  Repository_PushedAt : time.Time
}.

Record PullRequest := {
  PullRequest_Number : Z;
  PullRequest_CreatedAt : time.Time;
  PullRequest_UpdatedAt : time.Time
}.

Record RepositoryCommit := {
  SHA : string;
  Parents : list string
}.

(** One response of the API: an error, or a page of items together with
    [resp.NextPage] (0 when there is no further page). *)
Inductive Response (T : Type) : Type :=
| Failure (err : error)
| PageOf (items : list T) (NextPage : Z).
Arguments Failure {T} err.
Arguments PageOf {T} items NextPage.

(** The calls of [github.Client] the service uses.  The last argument is
    the page asked for ([ListOptions.Page]). *)
Record Client := {
  Search_Issues : string -> Z -> Response Issue;
  Issues_ListByRepo : string -> string -> string -> Z -> Response Issue;
  Repositories_ListCommits : string -> string -> time.Time -> Z -> Response RepositoryCommit;
  Repositories_ListByOrg : string -> Z -> Response Repository;
  PullRequests_List : string -> string -> string -> Z -> Response PullRequest;
  PullRequests_ListCommits : string -> string -> Z -> Z -> Response RepositoryCommit
}.

(** What goes over the wire, in the order it is sent. *)
Inductive Request : Type :=
| ReqSearchIssues (query : string) (page : Z)
| ReqIssuesListByRepo (owner repo assignee : string) (page : Z)
| ReqListCommits (owner repo : string) (since : time.Time) (page : Z)
| ReqListByOrg (owner : string) (page : Z)
| ReqPullRequestsList (owner repo state : string) (page : Z)
| ReqPullRequestsListCommits (owner repo : string) (number : Z) (page : Z).

Definition Trace := list Request.

(* ------------------------------------------------------------------ *)
(** ** Computations: a result and the requests sent, or out of fuel *)

Definition M (A : Type) : Type := option (A * Trace).

Definition ret {A} (a : A) : M A := Some (a, []).

Definition bind {A B} (m : M A) (k : A -> M B) : M B :=
  match m with
  | None => None
  | Some (a, t) =>
      match k a with
      | None => None
      | Some (b, t') => Some (b, t ++ t')
      end
  end.

Definition send (r : Request) : M unit := Some (tt, [r]).

Definition traceOf {A} (m : M A) : Trace :=
  match m with
  | Some (_, t) => t
  | None => []
  end.

Declare Scope go_scope.
Delimit Scope go_scope with go.
Notation "'do' p <- m ;; k" := (bind m (fun p => k))
  (at level 10, p pattern, m at level 99, k at level 200) : go_scope.
Local Open Scope go_scope.

(* ------------------------------------------------------------------ *)
(** ** The page loops *)

Section Paginate.
Context {T : Type}.
Variable fetch : Z -> Response T.
Variable req : Z -> Request.

(** The loop shared by [loadIssuesForAssignee], [loadIssuesForRepo],
    [loadCommitsForRepo], [loadReposForOrganization] and
    [loadPRsForRepo]:
<<
    for {
      items, resp, err := fetch(opt)
      if err != nil { e = err; break }
      all = append(all, items...)
      if resp.NextPage == 0 { break }
      opt.ListOptions.Page = resp.NextPage
    }
    return all, e
>> *)
Fixpoint paginate (fuel : nat) (page : Z) (all : list T)
  : M (list T * option error) :=
  match fuel with
  | O => None
  | S fuel' =>
      do _ <- send (req page) ;;
      match fetch page with
      | Failure err => ret (all, Some err)
      | PageOf items NextPage =>
          let all := all ++ items in
          if NextPage =? 0 then ret (all, None)
          else paginate fuel' NextPage all
      end
  end.

End Paginate.

(* ------------------------------------------------------------------ *)
(** ** Sorting *)

(** The [Less] methods of the two [sort.Interface] implementations,
    as comparisons of elements. *)
Definition RepositoryNameSorter_Less (a b : Repository) : bool :=
  String.ltb (strings.ToLower (Repository_Name a)) (strings.ToLower (Repository_Name b)).

Definition PROpenDurationSorter_Less (a b : PullRequest) : bool :=
  time.Before (PullRequest_CreatedAt a) (PullRequest_CreatedAt b).

(** [sort.Sort] belongs to the Go library, and its algorithm changed
    between releases; the service is parameterised by it.  What the
    library promises for a [Less] that is a strict weak order: the result
    is a rearrangement of the input, and no element is [Less] than one
    placed before it.  It does not promise stability. *)
Definition SortFn : Type := forall A : Type, (A -> A -> bool) -> list A -> list A.

Record LessOrder {A : Type} (less : A -> A -> bool) : Prop := {
  less_asym : forall x y, less x y = true -> less y x = false;
  less_negtrans : forall x y z, less y x = false -> less z y = false -> less z x = false
}.

Definition NotAfter {A : Type} (less : A -> A -> bool) (x y : A) : Prop := less y x = false.

Record SortContract (sort_Sort : SortFn) : Prop := {
  sort_Sort_perm : forall A (less : A -> A -> bool) (l : list A),
      Permutation (sort_Sort A less l) l;
  sort_Sort_sorted : forall A (less : A -> A -> bool) (l : list A),
      LessOrder less -> StronglySorted (NotAfter less) (sort_Sort A less l)
}.

(** Two sorts that meet the contract.  [insertionSort] is the stable
    insertion sort.  [shellInsertionSort] is what the quickSort-based
    [sort.Sort] (the Go releases with the gap-6 pass, up to 1.18) does on
    slices of at most 12 elements: one pass that compares (and swaps) each
    element with the one 6 places before it, then insertion sort; longer
    inputs go to [insertionSort] here. *)
Section Sorts.
Context {A : Type}.
Variable less : A -> A -> bool.

Fixpoint insert (x : A) (l : list A) : list A :=
  match l with
  | [] => [x]
  | y :: l' => if less y x then y :: insert x l' else x :: y :: l'
  end.

Fixpoint insertionSort (l : list A) : list A :=
  match l with
  | [] => []
  | x :: l' => insert x (insertionSort l')
  end.



End Sorts.

Definition stableSort : SortFn := fun A less l => insertionSort less l.

(* ------------------------------------------------------------------ *)
(** ** The service *)

Definition Qlt_bool (x y : Q) : bool := negb (Qle_bool y x).

Section Service.
Variable client : Client.
Variable sort_Sort : SortFn.
(** Bound on the number of pages one page loop asks for. *)
Variable fuel : nat.
(** The reading of the clock ([time.Now()]) during the call. *)
Variable now : time.Time.

Definition loadIssuesForAssignee (owner assignee : string)
  : M (list Issue * option error) :=
  let q := ("user:" +:+ owner +:+ " assignee:" +:+ assignee)%string in
  paginate (Search_Issues client q) (ReqSearchIssues q) fuel 0 [].

Definition loadIssuesForRepo (owner repo assigned : string)
  : M (list Issue * option error) :=
  paginate (Issues_ListByRepo client owner repo assigned)
           (ReqIssuesListByRepo owner repo assigned) fuel 0 [].

Definition loadCommitsForRepo (owner repo committer : string) (timeLimit : time.Time)
  : M (list RepositoryCommit * option error) :=
  paginate (Repositories_ListCommits client owner repo timeLimit)
           (ReqListCommits owner repo timeLimit) fuel 0 [].

Definition loadReposForOrganization (owner : string)
  : M (list Repository * option error) :=
  paginate (Repositories_ListByOrg client owner) (ReqListByOrg owner) fuel 0 [].

Definition loadPRsForRepo (owner repo : string)
  : M (list PullRequest * option error) :=
  paginate (PullRequests_List client owner repo "open")
           (ReqPullRequestsList owner repo "open") fuel 0 [].

(** *** loadCommitsFromAllRepoPRs *)

(** The test that ends the walk: the pull request was created and
    updated before [timeLimit]. *)
Definition olderThan (timeLimit : time.Time) (pullRequest : PullRequest) : bool :=
  time.After timeLimit (PullRequest_CreatedAt pullRequest) &&
  time.After timeLimit (PullRequest_UpdatedAt pullRequest).

(** The inner [for _, pullRequest := range pullRequests] loop.  The
    state is [allPRCommits], [e] and [remainingPRsAreOlder].  [prOpt] is
    built afresh for every pull request with [Page] unset, so each call
    of [PullRequests.ListCommits] asks for page 0; the assignment
    [prOpt.Page = prResp.NextPage] that ends the body is never read. *)
Fixpoint walkPullRequests (owner repo : string) (timeLimit : time.Time)
    (pullRequests : list PullRequest)
    (allPRCommits : list RepositoryCommit) (e : option error)
  : M (list RepositoryCommit * option error * bool) :=
  match pullRequests with
  | [] => ret (allPRCommits, e, false)
  | pullRequest :: rest =>
      if olderThan timeLimit pullRequest then ret (allPRCommits, e, true)
      else
        let number := PullRequest_Number pullRequest in
        do _ <- send (ReqPullRequestsListCommits owner repo number 0) ;;
        match PullRequests_ListCommits client owner repo number 0 with
        | Failure err => walkPullRequests owner repo timeLimit rest allPRCommits (Some err)
        | PageOf prCommits _ =>
            walkPullRequests owner repo timeLimit rest (allPRCommits ++ prCommits) e
        end
  end.

(** The outer page loop over [PullRequests.List]. *)
Fixpoint walkPullRequestPages (n : nat) (owner repo : string) (timeLimit : time.Time)
    (page : Z) (allPRCommits : list RepositoryCommit) (e : option error)
  : M (list RepositoryCommit * option error) :=
  match n with
  | O => None
  | S n' =>
      do _ <- send (ReqPullRequestsList owner repo "open,closed" page) ;;
      match PullRequests_List client owner repo "open,closed" page with
      | Failure err => ret (allPRCommits, Some err)
      | PageOf pullRequests NextPage =>
          do (allPRCommits, e, remainingPRsAreOlder) <-
             walkPullRequests owner repo timeLimit pullRequests allPRCommits e ;;
          if (NextPage =? 0) || remainingPRsAreOlder then ret (allPRCommits, e)
          else walkPullRequestPages n' owner repo timeLimit NextPage allPRCommits e
      end
  end.

Definition loadCommitsFromAllRepoPRs (owner repo : string) (timeLimit : time.Time)
  : M (list RepositoryCommit * option error) :=
  walkPullRequestPages fuel owner repo timeLimit 0 [] None.

(** *** loadActiveReposForOrganization *)

Definition isActive (days : Z) (repo : Repository) : bool :=
  Qle_bool (time.Hours (time.Since now (Repository_PushedAt repo)))
           (inject_Z days * 24)%Q.

Definition loadActiveReposForOrganization (owner : string) (days : Z)
  : M (list Repository * option error) :=
  do (allRepos, err) <- loadReposForOrganization owner ;;
  let e := err in
  let activeRepos := List.filter (isActive days) allRepos in
  ret (sort_Sort _ RepositoryNameSorter_Less activeRepos, e).

(** *** loadOpenPRsForOrganization *)

Definition numberOfDays (pullRequest : PullRequest) : Q :=
  (time.Hours (time.Since now (PullRequest_CreatedAt pullRequest)) / 24)%Q.

(** The loop over one repository's pull requests; the first one that is
    too new leaves the loop ([break]). *)
Fixpoint addOpenPRs (daysPROpen : Z) (pullRequests : list PullRequest)
    (allOpenPRs : list PullRequest) : list PullRequest :=
  match pullRequests with
  | [] => allOpenPRs
  | pullRequest :: rest =>
      if Qlt_bool (numberOfDays pullRequest) (inject_Z daysPROpen) then allOpenPRs
      else addOpenPRs daysPROpen rest (allOpenPRs ++ [pullRequest])
  end.

(** The loop over the active repositories; a failed fetch leaves it. *)
Fixpoint openPRsOfRepos (owner : string) (daysPROpen : Z) (repos : list Repository)
    (allOpenPRs : list PullRequest) (e : option error)
  : M (list PullRequest * option error) :=
  match repos with
  | [] => ret (allOpenPRs, e)
  | repo :: rest =>
      do (pullRequests, err) <- loadPRsForRepo owner (Repository_Name repo) ;;
      match err with
      | Some _ => ret (allOpenPRs, err)
      | None =>
          openPRsOfRepos owner daysPROpen rest
            (addOpenPRs daysPROpen pullRequests allOpenPRs) e
      end
  end.

Definition loadOpenPRsForOrganization (owner : string)
    (daysPROpen daysSinceLastProjectActivity : Z)
  : M (list PullRequest * option error) :=
  do (activeRepos, err) <-
     loadActiveReposForOrganization owner daysSinceLastProjectActivity ;;
  let e := err in
  do (allOpenPRs, e) <- openPRsOfRepos owner daysPROpen activeRepos [] e ;;
  ret (sort_Sort _ PROpenDurationSorter_Less allOpenPRs, e).

(** *** makeIssueList *)

Definition makeIssueList (owner repo assigned : string) (lambda : Issue -> bool)
  : M (list Issue * option error) :=
  do (issues, err) <- loadIssuesForRepo owner repo assigned ;;
  match err with
  | Some _ => ret ([], err)
  | None =>
      let sprintIssues :=
        List.filter (fun issue =>
                       match Issue_Labels issue with
                       | Some _ => lambda issue
                       | None => false
                       end) issues in
      ret (sprintIssues, err)
  end.

(** *** masterCommitsForSingleRepo *)

(** The loop that keeps the branch commits that are no merge and that
    [lambda] does not find among the pull requests' commits. *)
Definition keepMasterCommits
    (lambda : RepositoryCommit -> list RepositoryCommit -> bool)
    (commits allPRCommits : list RepositoryCommit) : list RepositoryCommit :=
  List.filter (fun commit =>
                 (Z.of_nat (length (Parents commit)) <=? 1) &&
                 negb (lambda commit allPRCommits)) commits.

(** [err] is declared by the first call and assigned again by the
    second: only the error of [loadCommitsFromAllRepoPRs] is looked at. *)
Definition masterCommitsForSingleRepo (owner repo committer : string)
    (lambda : RepositoryCommit -> list RepositoryCommit -> bool) (days : Z)
  : M (list RepositoryCommit * Z * option error) :=
  let timeLimit := time.AddDate now 0 0 (- days) in
  do (commits, err) <- loadCommitsForRepo owner repo committer timeLimit ;;
  do (allPRCommits, err) <- loadCommitsFromAllRepoPRs owner repo timeLimit ;;
  match err with
  | Some _ => ret ([], 0, err)
  | None =>
      let masterCommits := keepMasterCommits lambda commits allPRCommits in
      ret (masterCommits, Z.of_nat (length commits), err)
  end.

(** *** makeCommitsList *)

(** The loop over the active repositories of the organisation.  The
    result map is [None] where the Go code returns a nil map. *)
Fixpoint commitsOfRepos (owner committer : string)
    (lambda : RepositoryCommit -> list RepositoryCommit -> bool) (days : Z)
    (repositories : list Repository)
    (repoToMasterCommits : gmap string (list RepositoryCommit)) (totalCommits : Z)
  : M (option (gmap string (list RepositoryCommit)) * Z * option error) :=
  match repositories with
  | [] => ret (Some repoToMasterCommits, totalCommits, None)
  | repository :: rest =>
      let repoName := Repository_Name repository in
      do (masterCommits, totalRepoCommits, err) <-
         masterCommitsForSingleRepo owner repoName committer lambda days ;;
      match err with
      | Some _ => ret (None, 0, err)
      | None =>
          if (0 <? Z.of_nat (length masterCommits)) then
            commitsOfRepos owner committer lambda days rest
              (<[repoName := masterCommits]> repoToMasterCommits)
              (totalCommits + totalRepoCommits)
          else
            commitsOfRepos owner committer lambda days rest
              repoToMasterCommits totalCommits
      end
  end.

Definition makeCommitsList (owner repo committer : string)
    (lambda : RepositoryCommit -> list RepositoryCommit -> bool) (days : Z)
  : M (option (gmap string (list RepositoryCommit)) * Z * option error) :=
  let totalCommits := 0 in
  let repoToMasterCommits : gmap string (list RepositoryCommit) := ∅ in
  if String.eqb repo "" then
    do (repositories, err) <- loadActiveReposForOrganization owner days ;;
    match err with
    | Some _ => ret (None, 0, err)
    | None =>
        commitsOfRepos owner committer lambda days repositories
          repoToMasterCommits totalCommits
    end
  else
    do (masterCommits, totalRepoCommits, err) <-
       masterCommitsForSingleRepo owner repo committer lambda days ;;
    match err with
    | Some _ => ret (None, 0, err)
    | None =>
        ret (Some (<[repo := masterCommits]> repoToMasterCommits),
             totalCommits + totalRepoCommits, None)
    end.

End Service.

(** *** Label predicates *)

Fixpoint labelString (labels : list Label) (retval : string) : string :=
  match labels with
  | [] => retval
  | label :: rest =>
      labelString rest (retval +:+ strings.ToLower (Label_Name label) +:+ " ")
  end.

Definition getLabelString (labels : option (list Label)) : string :=
  labelString (default [] labels) "".

Definition any (issue : Issue) : bool := true.

Definition isProductBacklogItem (issue : Issue) : bool :=
  let label := getLabelString (Issue_Labels issue) in
  strings.Contains label "product" && strings.Contains label "backlog".

Definition isSprintItem (issue : Issue) : bool :=
  let label := getLabelString (Issue_Labels issue) in
  strings.Contains label "sprint".

Definition isInProgress (issue : Issue) : bool :=
  let label := getLabelString (Issue_Labels issue) in
  strings.Contains label "in" && strings.Contains label "progress".

Definition isReadyForQA (issue : Issue) : bool :=
  let label := getLabelString (Issue_Labels issue) in
  strings.Contains label "ready" && strings.Contains label "for" &&
  strings.Contains label "qa".

Definition isReadyForReview (issue : Issue) : bool :=
  let label := getLabelString (Issue_Labels issue) in
  strings.Contains label "ready" && strings.Contains label "for" &&
  strings.Contains label "review".

Definition isQAPass (issue : Issue) : bool :=
  let label := getLabelString (Issue_Labels issue) in
  strings.Contains label "qa" && strings.Contains label "pass".

Definition isDone (issue : Issue) : bool :=
  let label := getLabelString (Issue_Labels issue) in
  strings.Contains label "done".

Definition isBacklogItem (issue : Issue) : bool :=
  if isSprintItem issue || isInProgress issue || isReadyForQA issue ||
     isQAPass issue || isDone issue
  then false else true.

Fixpoint isCommitInList (commit : RepositoryCommit) (commitList : list RepositoryCommit)
  : bool :=
  match commitList with
  | [] => false
  | listCommit :: rest =>
      if String.eqb (SHA commit) (SHA listCommit) then true
      else isCommitInList commit rest
  end.

(** *** Public operations *)

Section Operations.
Variable client : Client.
Variable sort_Sort : SortFn.
Variable fuel : nat.
Variable now : time.Time.

Definition AssignedTo (owner repo login : string) : M (list Issue * option error) :=
  if String.eqb repo "*" then loadIssuesForAssignee client fuel owner login
  else makeIssueList client fuel owner repo login any.

Definition Sprint (owner repo : string) := makeIssueList client fuel owner repo "" isSprintItem.
Definition InProgress (owner repo : string) := makeIssueList client fuel owner repo "" isInProgress.
Definition ReadyForQA (owner repo : string) := makeIssueList client fuel owner repo "" isReadyForQA.
Definition QAPass (owner repo : string) := makeIssueList client fuel owner repo "" isQAPass.
Definition Backlog (owner repo : string) := makeIssueList client fuel owner repo "" isBacklogItem.
Definition ReadyForReview (owner repo : string) :=
  makeIssueList client fuel owner repo "" isReadyForReview.

Definition OpenPullRequests (owner : string) (daysPROpen daysSinceLastProjectActivity : Z) :=
  loadOpenPRsForOrganization client sort_Sort fuel now owner daysPROpen
    daysSinceLastProjectActivity.

Definition CommitsToMaster (owner repo : string) (days : Z) :=
  makeCommitsList client sort_Sort fuel now owner repo "" isCommitInList days.

End Operations.

(* ------------------------------------------------------------------ *)
(** ** Descriptions of what the remote side serves *)

(** [PageWalk fetch p ps o]: asking [fetch] for page [p] and following
    [NextPage] serves the pages [ps] (page asked, items served), and then
    either ends ([o = None]) or fails at the page and with the error given
    by [o]. *)
Inductive PageWalk {T : Type} (fetch : Z -> Response T)
  : Z -> list (Z * list T) -> option (Z * error) -> Prop :=
| walk_last p items :
    fetch p = PageOf items 0 -> PageWalk fetch p [(p, items)] None
| walk_next p items next ps o :
    fetch p = PageOf items next -> next <> 0 ->
    PageWalk fetch next ps o -> PageWalk fetch p ((p, items) :: ps) o
| walk_fail p err :
    fetch p = Failure err -> PageWalk fetch p [] (Some (p, err)).

Definition pagesAsked {T : Type} (ps : list (Z * list T)) (o : option (Z * error)) : list Z :=
  map fst ps ++ match o with Some (k, _) => [k] | None => [] end.

Definition itemsServed {T : Type} (ps : list (Z * list T)) : list T :=
  concat (map snd ps).

(** [FreshPages fetch timeLimit p ps q]: from page [p] on, the listing
    of pull requests serves the pages [ps], each with a further page and
    none holding a pull request older than [timeLimit]; the page after
    them is [q]. *)
Inductive FreshPages (fetch : Z -> Response PullRequest) (timeLimit : time.Time)
  : Z -> list (Z * list PullRequest) -> Z -> Prop :=
| fresh_done p : FreshPages fetch timeLimit p [] p
| fresh_page p prs next ps q :
    fetch p = PageOf prs next -> next <> 0 ->
    Forall (fun pr => olderThan timeLimit pr = false) prs ->
    FreshPages fetch timeLimit next ps q ->
    FreshPages fetch timeLimit p ((p, prs) :: ps) q.

Section PullRequestCommits.
Variable client : Client.
Variable owner repo : string.

(** What the first page of a pull request's commit list holds, nothing
    if the call fails. *)
Definition firstPageCommits (pr : PullRequest) : list RepositoryCommit :=
  match PullRequests_ListCommits client owner repo (PullRequest_Number pr) 0 with
  | PageOf prCommits _ => prCommits
  | Failure _ => []
  end.

(** The error left in [e] after the commit lists of [prs] were asked
    for in turn: that of the last call that failed. *)
Fixpoint lastError (prs : list PullRequest) (e : option error) : option error :=
  match prs with
  | [] => e
  | pr :: rest =>
      match PullRequests_ListCommits client owner repo (PullRequest_Number pr) 0 with
      | Failure err => lastError rest (Some err)
      | PageOf _ _ => lastError rest e
      end
  end.

Definition commitRequests (prs : list PullRequest) : Trace :=
  map (fun pr => ReqPullRequestsListCommits owner repo (PullRequest_Number pr) 0) prs.

Definition pageRequests (ps : list (Z * list PullRequest)) : Trace :=
  flat_map (fun '(p, prs) =>
              ReqPullRequestsList owner repo "open,closed" p :: commitRequests prs) ps.

(** A request for a pull request's commits that is in the trace and that
    the remote side answers with an error. *)
Definition failedIn (t : Trace) : Prop :=
  exists number err,
    In (ReqPullRequestsListCommits owner repo number 0) t /\
    PullRequests_ListCommits client owner repo number 0 = Failure err.

End PullRequestCommits.

Section OrganizationScan.
Variable client : Client.
Variable fuel : nat.
Variable now : time.Time.
Variable owner committer : string.
Variable lambda : RepositoryCommit -> list RepositoryCommit -> bool.
Variable days : Z.

(** The direct commits [masterCommitsForSingleRepo] returns for the
    repository [repoName], nothing if it returns an error. *)
Definition directCommitsOf (repoName : string) : list RepositoryCommit :=
  match masterCommitsForSingleRepo client fuel now owner repoName committer lambda days with
  | Some ((masterCommits, _, None), _) => masterCommits
  | _ => []
  end.

(** One round of the loop of the organisation scan on the result map. *)
Definition addRepository (repoToMasterCommits : gmap string (list RepositoryCommit))
    (repository : Repository) : gmap string (list RepositoryCommit) :=
  match directCommitsOf (Repository_Name repository) with
  | [] => repoToMasterCommits
  | masterCommits => <[Repository_Name repository := masterCommits]> repoToMasterCommits
  end.

(** The requests sent while scanning the repositories [repositories]. *)
Definition scanRequests (repositories : list Repository) : Trace :=
  flat_map (fun repository =>
              traceOf (masterCommitsForSingleRepo client fuel now owner
                         (Repository_Name repository) committer lambda days))
           repositories.

End OrganizationScan.

(** The six rules behind [Sprint], [InProgress], [ReadyForQA], [QAPass],
    the done state and [Backlog], and the number of them an issue
    matches. *)
Definition canonicalRules : list (Issue -> bool) :=
  [isSprintItem; isInProgress; isReadyForQA; isQAPass; isDone; isBacklogItem].

Definition bucketsOf (issue : Issue) : nat :=
  length (List.filter (fun rule => rule issue) canonicalRules).

(** The longest prefix of [l] whose elements all pass [f]. *)
Fixpoint takeWhile {A : Type} (f : A -> bool) (l : list A) : list A :=
  match l with
  | [] => []
  | x :: l' => if f x then x :: takeWhile f l' else []
  end.




(* ------------------------------------------------------------------ *)
(** ** Sample data *)

Module Sample.

Definition day : Z := 24 * time.Hour.

(** The clock of the samples: day 100. *)
Definition now : time.Time := 100 * day.

Definition quiet : Client := {|
  Search_Issues := fun _ _ => PageOf [] 0;
  Issues_ListByRepo := fun _ _ _ _ => PageOf [] 0;
  Repositories_ListCommits := fun _ _ _ _ => PageOf [] 0;
  Repositories_ListByOrg := fun _ _ => PageOf [] 0;
  PullRequests_List := fun _ _ _ _ => PageOf [] 0;
  PullRequests_ListCommits := fun _ _ _ _ => PageOf [] 0
|}.

Definition issue (n : Z) (labels : list string) : Issue :=
  {| Issue_Number := n; Issue_Labels := Some (map Build_Label labels) |}.

Definition repoAt (name : string) (pushedDaysAgo : Z) : Repository :=
  {| Repository_Name := name; Repository_PushedAt := now - pushedDaysAgo * day |}.

Definition prAt (n createdDaysAgo updatedDaysAgo : Z) : PullRequest :=
  {| PullRequest_Number := n;
     PullRequest_CreatedAt := now - createdDaysAgo * day;
     PullRequest_UpdatedAt := now - updatedDaysAgo * day |}.

Definition commit (sha : string) (parents : list string) : RepositoryCommit :=
  {| SHA := sha; Parents := parents |}.

(** Issues come in two pages and the second fails; repositories come in
    two pages, numbered 0 and 2. *)
Definition twoPages : Client := {|
  Search_Issues := fun _ _ => PageOf [] 0;
  Issues_ListByRepo := fun _ _ _ page =>
    if page =? 0 then PageOf [issue 1 ["sprint"]; issue 2 ["done"]] 2
    else Failure "502 Bad Gateway";
  Repositories_ListCommits := fun _ _ _ _ => PageOf [] 0;
  Repositories_ListByOrg := fun _ page =>
    if page =? 0 then PageOf [repoAt "zeta" 1; repoAt "alpha" 2] 2
    else PageOf [repoAt "Mid" 3] 0;
  PullRequests_List := fun _ _ _ _ => PageOf [] 0;
  PullRequests_ListCommits := fun _ _ _ _ => PageOf [] 0
|}.

(** Pull requests in descending order of update, last touched 1, 5, 40
    and 50 days ago, on a page that has a successor. *)
Definition agedPRs : Client := {|
  Search_Issues := fun _ _ => PageOf [] 0;
  Issues_ListByRepo := fun _ _ _ _ => PageOf [] 0;
  Repositories_ListCommits := fun _ _ _ _ => PageOf [] 0;
  Repositories_ListByOrg := fun _ _ => PageOf [] 0;
  PullRequests_List := fun _ _ _ page =>
    if page =? 0 then PageOf [prAt 1 1 1; prAt 2 5 5; prAt 3 40 40; prAt 4 50 50] 2
    else PageOf [prAt 5 60 60] 0;
  PullRequests_ListCommits := fun _ _ number _ =>
    if number =? 1 then PageOf [commit "a1" ["p"]] 0
    else if number =? 2 then PageOf [commit "b1" ["p"]; commit "b2" ["b1"]] 0
    else PageOf [commit "old" ["p"]] 0
|}.

(** The branch holds A (one parent), B (a merge) and C (one parent); C
    is also a commit of pull request 1. *)
Definition branchABC : Client := {|
  Search_Issues := fun _ _ => PageOf [] 0;
  Issues_ListByRepo := fun _ _ _ _ => PageOf [] 0;
  Repositories_ListCommits := fun _ _ _ _ =>
    PageOf [commit "A" ["p"]; commit "B" ["A"; "x"]; commit "C" ["B"]] 0;
  Repositories_ListByOrg := fun _ _ => PageOf [] 0;
  PullRequests_List := fun _ _ _ _ => PageOf [prAt 1 2 1] 0;
  PullRequests_ListCommits := fun _ _ _ _ => PageOf [commit "C" ["B"]] 0
|}.

(** The second page of the branch commits fails; the pull requests are
    served. *)
Definition branchFails : Client := {|
  Search_Issues := fun _ _ => PageOf [] 0;
  Issues_ListByRepo := fun _ _ _ _ => PageOf [] 0;
  Repositories_ListCommits := fun _ _ _ page =>
    if page =? 0 then PageOf [commit "A" ["p"]; commit "C" ["A"]] 2
    else Failure "503 Service Unavailable";
  Repositories_ListByOrg := fun _ _ => PageOf [] 0;
  PullRequests_List := fun _ _ _ _ => PageOf [prAt 1 2 1] 0;
  PullRequests_ListCommits := fun _ _ _ _ => PageOf [commit "C" ["A"]] 0
|}.

(** The commits of pull request 1 cannot be fetched, those of pull
    request 2 can. *)
Definition prCommitsFail : Client := {|
  Search_Issues := fun _ _ => PageOf [] 0;
  Issues_ListByRepo := fun _ _ _ _ => PageOf [] 0;
  Repositories_ListCommits := fun _ _ _ _ =>
    PageOf [commit "A" ["p"]; commit "C" ["A"]] 0;
  Repositories_ListByOrg := fun _ _ => PageOf [] 0;
  PullRequests_List := fun _ _ _ _ => PageOf [prAt 1 2 1; prAt 2 3 2] 0;
  PullRequests_ListCommits := fun _ _ number _ =>
    if number =? 1 then Failure "504 Gateway Timeout"
    else PageOf [commit "C" ["A"]] 0
|}.


(** One active repository whose open pull requests are listed newest
    first: number 1 was created 2 days ago, number 2 was created 10 days
    ago. *)
Definition youngFirst : Client := {|
  Search_Issues := fun _ _ => PageOf [] 0;
  Issues_ListByRepo := fun _ _ _ _ => PageOf [] 0;
  Repositories_ListCommits := fun _ _ _ _ => PageOf [] 0;
  Repositories_ListByOrg := fun _ _ => PageOf [repoAt "api" 1] 0;
  PullRequests_List := fun _ _ _ _ => PageOf [prAt 1 2 2; prAt 2 10 10] 0;
  PullRequests_ListCommits := fun _ _ _ _ => PageOf [] 0
|}.

(** Pull request 7 has two pages of commits, numbered 0 and 2. *)
Definition pagedPRCommits : Client := {|
  Search_Issues := fun _ _ => PageOf [] 0;
  Issues_ListByRepo := fun _ _ _ _ => PageOf [] 0;
  Repositories_ListCommits := fun _ _ _ _ => PageOf [] 0;
  Repositories_ListByOrg := fun _ _ => PageOf [] 0;
  PullRequests_List := fun _ _ _ _ => PageOf [prAt 7 2 1] 0;
  PullRequests_ListCommits := fun _ _ _ page =>
    if page =? 0 then PageOf [commit "c1" ["p"]] 2
    else PageOf [commit "c2" ["c1"]] 0
|}.

(** The organisation "org" has the repositories "docs" and "api", any
    other one has "zeta", "docs", "web" and "api", all active.  "api" has
    one direct commit, the commits of "docs" and "zeta" came through pull
    request 1, and the pull requests of "web" cannot be listed. *)
Definition threeRepos : Client := {|
  Search_Issues := fun _ _ => PageOf [] 0;
  Issues_ListByRepo := fun _ _ _ _ => PageOf [] 0;
  Repositories_ListCommits := fun _ repo _ _ =>
    if String.eqb repo "api" then PageOf [commit "A" ["p"]; commit "C" ["A"]] 0
    else PageOf [commit "C" ["A"]] 0;
  Repositories_ListByOrg := fun owner _ =>
    if String.eqb owner "org" then PageOf [repoAt "docs" 2; repoAt "api" 1] 0
    else PageOf [repoAt "zeta" 3; repoAt "docs" 2; repoAt "web" 1; repoAt "api" 1] 0;
  PullRequests_List := fun _ repo _ _ =>
    if String.eqb repo "web" then Failure "500 Internal Server Error"
    else PageOf [prAt 1 2 1] 0;
  PullRequests_ListCommits := fun _ _ _ _ => PageOf [commit "C" ["A"]] 0
|}.

(** Five issues in one page: number 3 has a nil label list, number 4 an
    empty one. *)
Definition labelledIssues : Client := {|
  Search_Issues := fun _ page =>
    if page =? 0 then PageOf [issue 1 ["Sprint 12"; "bug"]] 3
    else Failure "403 Forbidden";
  Issues_ListByRepo := fun _ _ _ _ =>
    PageOf [issue 1 ["Sprint 12"; "bug"]; issue 2 ["Done"];
            {| Issue_Number := 3; Issue_Labels := None |};
            issue 4 []; issue 5 ["In Progress"]] 0;
  Repositories_ListCommits := fun _ _ _ _ => PageOf [] 0;
  Repositories_ListByOrg := fun _ _ => PageOf [] 0;
  PullRequests_List := fun _ _ _ _ => PageOf [] 0;
  PullRequests_ListCommits := fun _ _ _ _ => PageOf [] 0
|}.

(** A remote side that always announces a further page of
    repositories. *)
Definition endless : Client := {|
  Search_Issues := fun _ _ => PageOf [] 0;
  Issues_ListByRepo := fun _ _ _ _ => PageOf [] 0;
  Repositories_ListCommits := fun _ _ _ _ => PageOf [] 0;
  Repositories_ListByOrg := fun _ page => PageOf [repoAt "api" 1] (Z.abs page + 1);
  PullRequests_List := fun _ _ _ _ => PageOf [] 0;
  PullRequests_ListCommits := fun _ _ _ _ => PageOf [] 0
|}.

(** Three active repositories: "api" lists pull requests created 20, 8
    and 2 days ago, "docs" one created 12 days ago, and the pull requests
    of "web" fail on the second page. *)
Definition openPRs : Client := {|
  Search_Issues := fun _ _ => PageOf [] 0;
  Issues_ListByRepo := fun _ _ _ _ => PageOf [] 0;
  Repositories_ListCommits := fun _ _ _ _ => PageOf [] 0;
  Repositories_ListByOrg := fun owner _ =>
    if String.eqb owner "org" then PageOf [repoAt "docs" 2; repoAt "api" 1] 0
    else PageOf [repoAt "docs" 2; repoAt "web" 1; repoAt "api" 1; repoAt "zeta" 1] 0;
  PullRequests_List := fun _ repo _ page =>
    if String.eqb repo "api" then PageOf [prAt 1 20 1; prAt 2 8 1; prAt 3 2 1] 0
    else if String.eqb repo "docs" then PageOf [prAt 4 12 3] 0
    else if page =? 0 then PageOf [prAt 5 30 1] 2
    else Failure "502 Bad Gateway";
  PullRequests_ListCommits := fun _ _ _ _ => PageOf [] 0
|}.

(** The second page of the repository listing fails. *)
Definition listingFails : Client := {|
  Search_Issues := fun _ _ => PageOf [] 0;
  Issues_ListByRepo := fun _ _ _ _ => PageOf [] 0;
  Repositories_ListCommits := fun _ _ _ _ => PageOf [commit "A" ["p"]] 0;
  Repositories_ListByOrg := fun _ page =>
    if page =? 0 then PageOf [repoAt "api" 1] 4 else Failure "401 Unauthorized";
  PullRequests_List := fun _ _ _ _ => PageOf [prAt 1 12 1] 0;
  PullRequests_ListCommits := fun _ _ _ _ => PageOf [] 0
|}.

End Sample.

(* ------------------------------------------------------------------ *)
(** ** Descriptions used for the label rules, the open pull requests and
    the totals *)

(** [pat] holds no space. *)
Fixpoint spaceFree (pat : string) : bool :=
  match pat with
  | EmptyString => true
  | String c pat' => negb (Ascii.eqb c " ") && spaceFree pat'
  end.

(** Some label's lowercased name contains [pat]. *)
Definition someLabelContains (labels : list Label) (pat : string) : bool :=
  existsb (fun label => strings.Contains (strings.ToLower (Label_Name label)) pat) labels.

(** A list in ascending order of creation time. *)
Definition SortedByCreation (l : list PullRequest) : Prop :=
  StronglySorted (fun a b => PullRequest_CreatedAt a <= PullRequest_CreatedAt b) l.

Section OpenPullRequests.
Variable client : Client.
Variable fuel : nat.
Variable now : time.Time.
Variable owner : string.
Variable daysPROpen : Z.

(** The open pull requests [loadPRsForRepo] returns for a repository. *)
Definition openPRsServed (repo : Repository) : list PullRequest :=
  match loadPRsForRepo client fuel owner (Repository_Name repo) with
  | Some ((pullRequests, _), _) => pullRequests
  | None => []
  end.

(** The pull request has been open for at least [daysPROpen] days. *)
Definition oldEnough (pullRequest : PullRequest) : bool :=
  negb (Qlt_bool (numberOfDays now pullRequest) (inject_Z daysPROpen)).

(** What the loop keeps of a repository's pull requests. *)
Definition keptOpenPRs (repo : Repository) : list PullRequest :=
  takeWhile oldEnough (openPRsServed repo).

Definition openPRRequests (repos : list Repository) : Trace :=
  flat_map (fun repo => traceOf (loadPRsForRepo client fuel owner (Repository_Name repo)))
           repos.

End OpenPullRequests.

Section OrganizationTotals.
Variable client : Client.
Variable fuel : nat.
Variable now : time.Time.
Variable owner committer : string.
Variable lambda : RepositoryCommit -> list RepositoryCommit -> bool.
Variable days : Z.

(** What a repository adds to the total of the organisation scan: its
    number of branch commits if it has direct commits, nothing
    otherwise. *)
Definition countedCommitsOf (repository : Repository) : Z :=
  match masterCommitsForSingleRepo client fuel now owner (Repository_Name repository)
          committer lambda days with
  | Some ((_ :: _, totalRepoCommits, None), _) => totalRepoCommits
  | _ => 0
  end.

Definition countedCommits (repositories : list Repository) : Z :=
  fold_right (fun repository sum => countedCommitsOf repository + sum) 0 repositories.

End OrganizationTotals.

(* ================================================================== *)
(** * Properties *)

(* ------------------------------------------------------------------ *)
(** ** The monad *)

Lemma bind_send {A} (r : Request) (m : M A) :
  bind (send r) (fun _ => m) =
  match m with Some (a, t) => Some (a, r :: t) | None => None end.
Proof. destruct m as [[a t]|]; reflexivity. Qed.

(* ------------------------------------------------------------------ *)
(** ** The page loop *)

Section PaginateFacts.
Context {T : Type}.
Variable fetch : Z -> Response T.
Variable req : Z -> Request.

Lemma paginate_S fuel p all :
  paginate fetch req (S fuel) p all =
  match fetch p with
  | Failure err => Some ((all, Some err), [req p])
  | PageOf items next =>
      if next =? 0 then Some ((all ++ items, None), [req p])
      else match paginate fetch req fuel next (all ++ items) with
           | Some (r, t) => Some (r, req p :: t)
           | None => None
           end
  end.
Proof.
  cbn [paginate]. rewrite bind_send.
  destruct (fetch p) as [err|items next]; [reflexivity|].
  destruct (next =? 0); [reflexivity|].
  destruct (paginate fetch req fuel next (all ++ items)) as [[r t]|]; reflexivity.
Qed.

(** With fuel for every page asked, the loop returns all items served,
    in order, after what was accumulated before, with the walk's error
    if it failed; it sends one request per page. *)
Lemma paginate_walk p ps o :
  PageWalk fetch p ps o ->
  forall fuel all, (length (pagesAsked ps o) <= fuel)%nat ->
    paginate fetch req fuel p all =
    Some ((all ++ itemsServed ps, option_map snd o), map req (pagesAsked ps o)).
Proof.
  induction 1 as [p items Hp | p items next ps o Hp Hnext _ IH | p err Hp];
    intros fuel all Hfuel; (destruct fuel as [|fuel]; [simpl in Hfuel; lia|]);
    rewrite paginate_S, Hp.
  - simpl. unfold itemsServed. simpl. rewrite app_nil_r. reflexivity.
  - apply Z.eqb_neq in Hnext. rewrite Hnext.
    rewrite (IH fuel (all ++ items)) by (unfold pagesAsked in *; simpl in *; lia).
    unfold itemsServed, pagesAsked. simpl. rewrite <- app_assoc. reflexivity.
  - simpl. unfold itemsServed. simpl. rewrite app_nil_r. reflexivity.
Qed.

(** Every run that returns followed such a walk. *)
Lemma paginate_inv fuel : forall p all r t,
  paginate fetch req fuel p all = Some (r, t) ->
  exists ps o, PageWalk fetch p ps o /\ (length (pagesAsked ps o) <= fuel)%nat /\
    r = (all ++ itemsServed ps, option_map snd o) /\ t = map req (pagesAsked ps o).
Proof.
  induction fuel as [|fuel IH]; intros p all r t; [discriminate|].
  rewrite paginate_S.
  destruct (fetch p) as [err|items next] eqn:Hp.
  - intros [= <- <-]. exists [], (Some (p, err)). repeat split.
    + by constructor.
    + simpl. lia.
    + unfold itemsServed. simpl. by rewrite app_nil_r.
  - destruct (next =? 0) eqn:Hnext.
    + apply Z.eqb_eq in Hnext. subst next. intros [= <- <-].
      exists [(p, items)], None. repeat split.
      * by constructor.
      * simpl. lia.
      * unfold itemsServed. simpl. by rewrite app_nil_r.
    + apply Z.eqb_neq in Hnext.
      destruct (paginate fetch req fuel next (all ++ items)) as [[r' t']|] eqn:Hrec;
        [|discriminate].
      intros [= <- <-]. apply IH in Hrec as (ps & o & Hw & Hlen & -> & ->).
      exists ((p, items) :: ps), o. repeat split.
      * by econstructor.
      * unfold pagesAsked in *. simpl in *. lia.
      * unfold itemsServed. simpl. by rewrite <- app_assoc.
Qed.

End PaginateFacts.

(* ------------------------------------------------------------------ *)
(** ** The walk over pull requests *)

Lemma lastError_app client owner repo prs1 prs2 : forall e,
  lastError client owner repo (prs1 ++ prs2) e =
  lastError client owner repo prs2 (lastError client owner repo prs1 e).
Proof.
  induction prs1 as [|pr rest IH]; intros e; [done|]. simpl.
  by destruct (PullRequests_ListCommits client owner repo (PullRequest_Number pr) 0).
Qed.

Section WalkFacts.
Variable client : Client.
Variable owner repo : string.
Variable timeLimit : time.Time.

Abbreviation fresh := (fun pr => olderThan timeLimit pr = false).
Abbreviation walk := (walkPullRequests client owner repo timeLimit).
Abbreviation walkPages := (fun n => walkPullRequestPages client n owner repo timeLimit).
Abbreviation listPRs := (PullRequests_List client owner repo "open,closed").

Lemma walkPullRequests_cons pr rest pool e :
  walk (pr :: rest) pool e =
  if olderThan timeLimit pr then Some ((pool, e, true), [])
  else
    match
      match PullRequests_ListCommits client owner repo (PullRequest_Number pr) 0 with
      | Failure err => walk rest pool (Some err)
      | PageOf prCommits _ => walk rest (pool ++ prCommits) e
      end
    with
    | Some (r, t) =>
        Some (r, ReqPullRequestsListCommits owner repo (PullRequest_Number pr) 0 :: t)
    | None => None
    end.
Proof.
  cbn [walkPullRequests]. destruct (olderThan timeLimit pr); [reflexivity|].
  rewrite bind_send. reflexivity.
Qed.

(** The inner loop always returns. *)
Lemma walkPullRequests_total prs : forall pool e, is_Some (walk prs pool e).
Proof.
  induction prs as [|pr rest IH]; intros pool e; [by eexists|].
  rewrite walkPullRequests_cons. destruct (olderThan timeLimit pr); [by eexists|].
  destruct (PullRequests_ListCommits client owner repo (PullRequest_Number pr) 0)
    as [err|cs nx].
  - destruct (IH pool (Some err)) as [[r t] ->]. by eexists.
  - destruct (IH (pool ++ cs) e) as [[r t] ->]. by eexists.
Qed.

(** Over pull requests none of which is older than the limit, the loop
    asks for the first page of each one's commits and runs to the end. *)
Lemma walkPullRequests_fresh prs : forall pool e,
  Forall fresh prs ->
  walk prs pool e =
  Some ((pool ++ flat_map (firstPageCommits client owner repo) prs,
         lastError client owner repo prs e, false),
        commitRequests owner repo prs).
Proof.
  induction prs as [|pr rest IH]; intros pool e Hfresh.
  - simpl. by rewrite app_nil_r.
  - inversion Hfresh as [|? ? Hpr Hrest]; subst.
    rewrite walkPullRequests_cons, Hpr. unfold firstPageCommits at 1. simpl.
    destruct (PullRequests_ListCommits client owner repo (PullRequest_Number pr) 0)
      as [err|cs nx]; rewrite IH by done; simpl.
    + reflexivity.
    + by rewrite <- app_assoc.
Qed.

(** At the first pull request older than the limit the loop is left:
    nothing is asked for it nor for those after it. *)
Lemma walkPullRequests_stop prs1 old prs2 : forall pool e,
  Forall fresh prs1 -> olderThan timeLimit old = true ->
  walk (prs1 ++ old :: prs2) pool e =
  Some ((pool ++ flat_map (firstPageCommits client owner repo) prs1,
         lastError client owner repo prs1 e, true),
        commitRequests owner repo prs1).
Proof.
  induction prs1 as [|pr rest IH]; intros pool e Hfresh Hold.
  - simpl app. rewrite walkPullRequests_cons, Hold. simpl. by rewrite app_nil_r.
  - inversion Hfresh as [|? ? Hpr Hrest]; subst.
    rewrite <- app_comm_cons, walkPullRequests_cons, Hpr.
    unfold firstPageCommits at 1. simpl.
    destruct (PullRequests_ListCommits client owner repo (PullRequest_Number pr) 0)
      as [err|cs nx]; rewrite IH by done; simpl.
    + reflexivity.
    + by rewrite <- app_assoc.
Qed.

Lemma walkPullRequestPages_S n page pool e :
  walkPages (S n) page pool e =
  match listPRs page with
  | Failure err => Some ((pool, Some err), [ReqPullRequestsList owner repo "open,closed" page])
  | PageOf prs next =>
      match walk prs pool e with
      | Some ((pool', e', older), t) =>
          if (next =? 0) || older
          then Some ((pool', e'), ReqPullRequestsList owner repo "open,closed" page :: t)
          else match walkPages n next pool' e' with
               | Some (r, t') =>
                   Some (r, ReqPullRequestsList owner repo "open,closed" page :: t ++ t')
               | None => None
               end
      | None => None
      end
  end.
Proof.
  cbn [walkPullRequestPages]. rewrite bind_send.
  destruct (listPRs page) as [err|prs next]; [reflexivity|].
  destruct (walk prs pool e) as [[[[pool' e'] older] t]|]; [|reflexivity].
  cbn [bind]. destruct ((next =? 0) || older).
  - simpl. by rewrite app_nil_r.
  - destruct (walkPullRequestPages client n owner repo timeLimit next pool' e')
      as [[r t']|]; reflexivity.
Qed.

(** Pages without an older pull request are walked through in full. *)
Lemma walkPullRequestPages_fresh p ps q :
  FreshPages listPRs timeLimit p ps q ->
  forall n pool e,
    walkPages (length ps + n)%nat p pool e =
    match walkPages n q
            (pool ++ flat_map (firstPageCommits client owner repo) (itemsServed ps))
            (lastError client owner repo (itemsServed ps) e) with
    | Some (r, t) => Some (r, pageRequests owner repo ps ++ t)
    | None => None
    end.
Proof.
  induction 1 as [p | p prs next ps q Hp Hnext Hfresh _ IH]; intros n pool e.
  - unfold itemsServed. simpl. rewrite app_nil_r.
    by destruct (walkPullRequestPages _ _ _ _ _ _ _ _) as [[r t]|].
  - cbn [length Nat.add]. rewrite walkPullRequestPages_S, Hp.
    rewrite walkPullRequests_fresh by done.
    apply Z.eqb_neq in Hnext. rewrite Hnext. cbn [orb].
    rewrite IH. unfold itemsServed. cbn [map concat snd].
    rewrite flat_map_app, app_assoc.
    rewrite lastError_app.
    destruct (walkPullRequestPages _ _ _ _ _ _ _ _) as [[r t]|]; [|done].
    simpl. by rewrite <- app_assoc.
Qed.

(** The walk returns whenever the listing of pull requests ends or
    fails after finitely many pages and there is fuel for them. *)
Lemma walkPullRequestPages_total p ps o :
  PageWalk listPRs p ps o ->
  forall n pool e, (length (pagesAsked ps o) <= n)%nat -> is_Some (walkPages n p pool e).
Proof.
  induction 1 as [p prs Hp | p prs next ps o Hp Hnext _ IH | p err Hp];
    intros n pool e Hn; (destruct n as [|n]; [simpl in Hn; lia|]);
    rewrite walkPullRequestPages_S, Hp; [| |by eexists].
  - destruct (walkPullRequests_total prs pool e) as [[[[p1 e1] o1] t1] ->].
    by eexists.
  - destruct (walkPullRequests_total prs pool e) as [[[[p1 e1] o1] t1] ->].
    destruct ((next =? 0) || o1); [by eexists|].
    destruct (IH n p1 e1) as [[r t] ->]; [|by eexists].
    unfold pagesAsked in *. simpl in *. lia.
Qed.

End WalkFacts.

(* ------------------------------------------------------------------ *)
(** ** Paginated fetches *)

(** C4.  A paginated fetch ([loadIssuesForRepo], [loadReposForOrganization])
    returns the concatenation, in order, of the items of the pages served.
    If the fetch of a page fails, the loop ends there: the items of the
    pages before it are returned together with the error, and the failed
    page is the last one asked for, once. *)
Theorem paginated_fetch_concatenates_pages
    (client : Client) (fuel : nat) (owner repo assigned : string)
    (ips : list (Z * list Issue)) (io : option (Z * error))
    (rps : list (Z * list Repository)) (ro : option (Z * error)) :
  PageWalk (Issues_ListByRepo client owner repo assigned) 0 ips io ->
  (length (pagesAsked ips io) <= fuel)%nat ->
  PageWalk (Repositories_ListByOrg client owner) 0 rps ro ->
  (length (pagesAsked rps ro) <= fuel)%nat ->
  loadIssuesForRepo client fuel owner repo assigned =
    Some ((itemsServed ips, option_map snd io),
          map (ReqIssuesListByRepo owner repo assigned) (pagesAsked ips io)) /\
  loadReposForOrganization client fuel owner =
    Some ((itemsServed rps, option_map snd ro),
          map (ReqListByOrg owner) (pagesAsked rps ro)).
Proof.
  intros Hi Hifuel Hr Hrfuel. unfold loadIssuesForRepo, loadReposForOrganization.
  split.
  - by rewrite (paginate_walk _ _ _ _ _ Hi fuel []).
  - by rewrite (paginate_walk _ _ _ _ _ Hr fuel []).
Qed.

Lemma paginated_fetch_concatenates_pages_witness :
  loadIssuesForRepo Sample.twoPages 3 "org" "repo" "" =
    Some (([Sample.issue 1 ["sprint"]; Sample.issue 2 ["done"]], Some "502 Bad Gateway"),
          [ReqIssuesListByRepo "org" "repo" "" 0; ReqIssuesListByRepo "org" "repo" "" 2]) /\
  loadReposForOrganization Sample.twoPages 3 "org" =
    Some (([Sample.repoAt "zeta" 1; Sample.repoAt "alpha" 2; Sample.repoAt "Mid" 3], None),
          [ReqListByOrg "org" 0; ReqListByOrg "org" 2]).
Proof.
  apply (paginated_fetch_concatenates_pages Sample.twoPages 3 "org" "repo" ""
           [(0, [Sample.issue 1 ["sprint"]; Sample.issue 2 ["done"]])]
           (Some (2, "502 Bad Gateway"))
           [(0, [Sample.repoAt "zeta" 1; Sample.repoAt "alpha" 2]);
            (2, [Sample.repoAt "Mid" 3])] None).
  - eapply walk_next; [reflexivity|lia|]. apply walk_fail. reflexivity.
  - simpl. lia.
  - eapply walk_next; [reflexivity|lia|]. apply walk_last. reflexivity.
  - simpl. lia.
Defined.

(* ------------------------------------------------------------------ *)
(** ** The commits of the pull requests *)

(** C5.  In [loadCommitsFromAllRepoPRs], when the pages [ps] hold no pull
    request created and updated before the time limit and the next page
    holds [old], the first one that is, the walk ends at [old]: after the
    request for that page only the commits of the pull requests before
    [old] are asked for.  No commits are asked for [old] or for any pull
    request after it, and no further page of pull requests is asked for,
    whether or not the page has a successor. *)
Theorem walk_stops_at_first_older_pull_request
    (client : Client) (fuel : nat) (owner repo : string) (timeLimit : time.Time)
    (ps : list (Z * list PullRequest)) (q next : Z)
    (prs1 prs2 : list PullRequest) (old : PullRequest) :
  FreshPages (PullRequests_List client owner repo "open,closed") timeLimit 0 ps q ->
  PullRequests_List client owner repo "open,closed" q = PageOf (prs1 ++ old :: prs2) next ->
  Forall (fun pr => olderThan timeLimit pr = false) prs1 ->
  olderThan timeLimit old = true ->
  (length ps < fuel)%nat ->
  loadCommitsFromAllRepoPRs client fuel owner repo timeLimit =
    Some ((flat_map (firstPageCommits client owner repo) (itemsServed ps ++ prs1),
           lastError client owner repo (itemsServed ps ++ prs1) None),
          pageRequests owner repo ps ++
          ReqPullRequestsList owner repo "open,closed" q :: commitRequests owner repo prs1).
Proof.
  intros Hps Hq Hfresh Hold Hfuel. unfold loadCommitsFromAllRepoPRs.
  replace fuel with (length ps + S (fuel - S (length ps)))%nat by lia.
  rewrite (walkPullRequestPages_fresh _ _ _ _ _ _ _ Hps).
  rewrite walkPullRequestPages_S, Hq, walkPullRequests_stop by done.
  rewrite orb_true_r. cbn [app]. by rewrite flat_map_app, lastError_app.
Qed.

Lemma walk_stops_at_first_older_pull_request_witness :
  loadCommitsFromAllRepoPRs Sample.agedPRs 1 "org" "repo" (Sample.now - 30 * Sample.day) =
    Some (([Sample.commit "a1" ["p"]; Sample.commit "b1" ["p"]; Sample.commit "b2" ["b1"]],
           None),
          [ReqPullRequestsList "org" "repo" "open,closed" 0;
           ReqPullRequestsListCommits "org" "repo" 1 0;
           ReqPullRequestsListCommits "org" "repo" 2 0]).
Proof.
  apply (walk_stops_at_first_older_pull_request Sample.agedPRs 1 "org" "repo"
           (Sample.now - 30 * Sample.day) [] 0 2
           [Sample.prAt 1 1 1; Sample.prAt 2 5 5] [Sample.prAt 4 50 50]
           (Sample.prAt 3 40 40)).
  - apply fresh_done.
  - reflexivity.
  - repeat constructor.
  - reflexivity.
  - simpl. lia.
Defined.

(* ------------------------------------------------------------------ *)
(** ** Direct commits of one repository *)


Lemma keepMasterCommits_In lambda commits allPRCommits commit :
  In commit (keepMasterCommits lambda commits allPRCommits) <->
  In commit commits /\ (length (Parents commit) <= 1)%nat /\
  lambda commit allPRCommits = false.
Proof.
  unfold keepMasterCommits. rewrite filter_In, andb_true_iff, negb_true_iff.
  rewrite Z.leb_le. split; intros (? & ? & ?); repeat split; auto; lia.
Qed.

(** What [masterCommitsForSingleRepo] returns, from what its two fetches
    return. *)
Lemma masterCommitsForSingleRepo_eq client fuel now owner repo committer lambda days
    commits e1 t1 allPRCommits e2 t2 :
  loadCommitsForRepo client fuel owner repo committer (time.AddDate now 0 0 (- days)) =
    Some ((commits, e1), t1) ->
  loadCommitsFromAllRepoPRs client fuel owner repo (time.AddDate now 0 0 (- days)) =
    Some ((allPRCommits, e2), t2) ->
  masterCommitsForSingleRepo client fuel now owner repo committer lambda days =
    Some (match e2 with
          | Some _ => ([], 0, e2)
          | None => (keepMasterCommits lambda commits allPRCommits,
                     Z.of_nat (length commits), None)
          end, t1 ++ t2).
Proof.
  intros H1 H2. unfold masterCommitsForSingleRepo. rewrite H1. cbn [bind].
  rewrite H2. cbn [bind]. destruct e2; simpl; by rewrite app_nil_r.
Qed.

(** [masterCommitsForSingleRepo] returns whenever both listings end or
    fail after finitely many pages and there is fuel for them. *)
Lemma masterCommitsForSingleRepo_total client fuel now owner repo committer lambda days
    cps co pps po :
  PageWalk (Repositories_ListCommits client owner repo (time.AddDate now 0 0 (- days)))
           0 cps co ->
  (length (pagesAsked cps co) <= fuel)%nat ->
  PageWalk (PullRequests_List client owner repo "open,closed") 0 pps po ->
  (length (pagesAsked pps po) <= fuel)%nat ->
  is_Some (masterCommitsForSingleRepo client fuel now owner repo committer lambda days).
Proof.
  intros Hc Hcfuel Hp Hpfuel.
  destruct (walkPullRequestPages_total client owner repo
              (time.AddDate now 0 0 (- days)) 0 pps po Hp fuel [] None Hpfuel)
    as [[[pool e2] t2] Hprs].
  erewrite masterCommitsForSingleRepo_eq; [by eexists| |exact Hprs].
  unfold loadCommitsForRepo. by rewrite (paginate_walk _ _ _ _ _ Hc fuel []).
Qed.



Example direct_commits_of_branchABC :
  masterCommitsForSingleRepo Sample.branchABC 2 Sample.now "org" "repo" ""
    isCommitInList 30 =
  Some (([Sample.commit "A" ["p"]], 3, None),
        [ReqListCommits "org" "repo" (time.AddDate Sample.now 0 0 (- 30)) 0;
         ReqPullRequestsList "org" "repo" "open,closed" 0;
         ReqPullRequestsListCommits "org" "repo" 1 0]).
Proof. reflexivity. Qed.

(** C10.  When the fetch of the branch commits fails at some page and the
    fetch of the pull requests' commits succeeds, the error of the branch
    fetch is lost: [masterCommitsForSingleRepo] reports no error and
    returns the direct commits among the branch commits of the pages
    served before the failure, counted as the total. *)
Theorem branch_fetch_error_is_dropped
    (client : Client) (fuel : nat) (now : time.Time) (owner repo committer : string)
    (lambda : RepositoryCommit -> list RepositoryCommit -> bool) (days : Z)
    (ps : list (Z * list RepositoryCommit)) (k : Z) (err : error)
    (allPRCommits : list RepositoryCommit) (t2 : Trace) :
  PageWalk (Repositories_ListCommits client owner repo (time.AddDate now 0 0 (- days)))
           0 ps (Some (k, err)) ->
  (length ps < fuel)%nat ->
  loadCommitsFromAllRepoPRs client fuel owner repo (time.AddDate now 0 0 (- days)) =
    Some ((allPRCommits, None), t2) ->
  loadCommitsForRepo client fuel owner repo committer (time.AddDate now 0 0 (- days)) =
    Some ((itemsServed ps, Some err),
          map (ReqListCommits owner repo (time.AddDate now 0 0 (- days)))
              (pagesAsked ps (Some (k, err)))) /\
  masterCommitsForSingleRepo client fuel now owner repo committer lambda days =
    Some ((keepMasterCommits lambda (itemsServed ps) allPRCommits,
           Z.of_nat (length (itemsServed ps)), None),
          map (ReqListCommits owner repo (time.AddDate now 0 0 (- days)))
              (pagesAsked ps (Some (k, err))) ++ t2).
Proof.
  intros Hwalk Hfuel Hprs.
  assert (Hload :
    loadCommitsForRepo client fuel owner repo committer (time.AddDate now 0 0 (- days)) =
    Some ((itemsServed ps, Some err),
          map (ReqListCommits owner repo (time.AddDate now 0 0 (- days)))
              (pagesAsked ps (Some (k, err))))).
  { unfold loadCommitsForRepo.
    rewrite (paginate_walk _ _ _ _ _ Hwalk fuel []); [done|].
    unfold pagesAsked. rewrite length_app, length_map. simpl. lia. }
  split; [exact Hload|].
  by rewrite (masterCommitsForSingleRepo_eq _ _ _ _ _ _ _ _ _ _ _ _ _ _ Hload Hprs).
Qed.

Lemma branch_fetch_error_is_dropped_witness :
  loadCommitsForRepo Sample.branchFails 3 "org" "repo" ""
      (time.AddDate Sample.now 0 0 (- 30)) =
    Some (([Sample.commit "A" ["p"]; Sample.commit "C" ["A"]],
           Some "503 Service Unavailable"),
          [ReqListCommits "org" "repo" (time.AddDate Sample.now 0 0 (- 30)) 0;
           ReqListCommits "org" "repo" (time.AddDate Sample.now 0 0 (- 30)) 2]) /\
  masterCommitsForSingleRepo Sample.branchFails 3 Sample.now "org" "repo" ""
      isCommitInList 30 =
    Some (([Sample.commit "A" ["p"]], 2, None),
          [ReqListCommits "org" "repo" (time.AddDate Sample.now 0 0 (- 30)) 0;
           ReqListCommits "org" "repo" (time.AddDate Sample.now 0 0 (- 30)) 2] ++
          [ReqPullRequestsList "org" "repo" "open,closed" 0;
           ReqPullRequestsListCommits "org" "repo" 1 0]).
Proof.
  apply (branch_fetch_error_is_dropped Sample.branchFails 3 Sample.now "org" "repo" ""
           isCommitInList 30 [(0, [Sample.commit "A" ["p"]; Sample.commit "C" ["A"]])]
           2 "503 Service Unavailable" [Sample.commit "C" ["A"]]).
  - eapply walk_next; [reflexivity|lia|]. apply walk_fail. reflexivity.
  - simpl. lia.
  - reflexivity.
Defined.

(** *** Failures of a pull request's commit fetch *)

Section PRFailures.
Variable client : Client.
Variable owner repo : string.
Variable timeLimit : time.Time.

Lemma failedIn_app t1 t2 : failedIn client owner repo (t1 ++ t2) -> failedIn client owner repo t1 \/ failedIn client owner repo t2.
Proof.
  intros (n & err & Hin & Hf). apply in_app_or in Hin as [Hin|Hin];
    [left|right]; by exists n, err.
Qed.

(** An error recorded in [e] is never cleared by the inner loop, and a
    failed request leaves one. *)
Lemma walkPullRequests_records prs : forall pool e pool' e' older t,
  walkPullRequests client owner repo timeLimit prs pool e = Some ((pool', e', older), t) ->
  is_Some e \/ failedIn client owner repo t -> is_Some e'.
Proof.
  induction prs as [|pr rest IH]; intros pool e pool' e' older t.
  - simpl. intros [= <- <- <- <-] [He|(n & err & [] & _)]. done.
  - rewrite walkPullRequests_cons. destruct (olderThan timeLimit pr).
    { intros [= <- <- <- <-] [He|(n & err & [] & _)]. done. }
    destruct (PullRequests_ListCommits client owner repo (PullRequest_Number pr) 0)
      as [err|cs nx] eqn:Hpr.
    + destruct (walkPullRequests _ _ _ _ rest pool (Some err))
        as [[[[p1 e1] o1] t1]|] eqn:Hrec; [|done].
      intros [= <- <- <- <-] _. eapply IH; [exact Hrec|]. left. by eexists.
    + destruct (walkPullRequests _ _ _ _ rest (pool ++ cs) e)
        as [[[[p1 e1] o1] t1]|] eqn:Hrec; [|done].
      intros [= <- <- <- <-] H. eapply IH; [exact Hrec|].
      destruct H as [He|(n & err & [Heq|Hin] & Hf)]; [by left| |right; by exists n, err].
      injection Heq as <-. congruence.
Qed.

Lemma walkPullRequestPages_records n : forall page pool e pool' e' t,
  walkPullRequestPages client n owner repo timeLimit page pool e = Some ((pool', e'), t) ->
  is_Some e \/ failedIn client owner repo t -> is_Some e'.
Proof.
  induction n as [|n IH]; intros page pool e pool' e' t; [done|].
  rewrite walkPullRequestPages_S.
  destruct (PullRequests_List client owner repo "open,closed" page) as [err|prs next].
  { intros [= <- <- <-] _. by eexists. }
  destruct (walkPullRequests client owner repo timeLimit prs pool e)
    as [[[[p1 e1] o1] t1]|] eqn:Hwalk; [|done].
  destruct ((next =? 0) || o1).
  - intros [= <- <- <-] H. eapply walkPullRequests_records; [exact Hwalk|].
    destruct H as [He|(k & err & [Heq|Hin] & Hf)]; [by left|done|right; by exists k, err].
  - destruct (walkPullRequestPages client n owner repo timeLimit next p1 e1)
      as [[[p2 e2] t2]|] eqn:Hrec; [|done].
    intros [= <- <- <-] H. eapply IH; [exact Hrec|].
    destruct H as [He|(k & err & [Heq|Hin] & Hf)]; [| done |].
    + left. eapply walkPullRequests_records; [exact Hwalk|by left].
    + apply in_app_or in Hin as [Hin|Hin].
      * left. eapply walkPullRequests_records; [exact Hwalk|]. right. by exists k, err.
      * right. by exists k, err.
Qed.

End PRFailures.

(** C3, as the code has it.  (1) Among pull requests none of which is
    older than the limit, a failed fetch of one's commits is recorded and
    the loop goes on: the commits of those after it are added to the pool
    and a request is sent for each.  (2) Whenever a request for a pull
    request's commits fails, [loadCommitsFromAllRepoPRs] returns an error
    along with the pool.  (3) [masterCommitsForSingleRepo] then returns
    that error with no commits and count 0: it computes no direct
    commits. *)
Theorem pr_commit_failure_is_recorded_and_returned
    (client : Client) (fuel : nat) (now : time.Time) (owner repo committer : string)
    (lambda : RepositoryCommit -> list RepositoryCommit -> bool) (days : Z) :
  (forall prs1 pr prs2 pool e err,
      Forall (fun pr => olderThan (time.AddDate now 0 0 (- days)) pr = false)
             (prs1 ++ pr :: prs2) ->
      PullRequests_ListCommits client owner repo (PullRequest_Number pr) 0 = Failure err ->
      walkPullRequests client owner repo (time.AddDate now 0 0 (- days))
        (prs1 ++ pr :: prs2) pool e =
      Some ((pool ++ flat_map (firstPageCommits client owner repo) prs1
                  ++ flat_map (firstPageCommits client owner repo) prs2,
             lastError client owner repo prs2 (Some err), false),
            commitRequests owner repo (prs1 ++ pr :: prs2))) /\
  (forall allPRCommits e t,
      loadCommitsFromAllRepoPRs client fuel owner repo (time.AddDate now 0 0 (- days)) =
        Some ((allPRCommits, e), t) ->
      failedIn client owner repo t -> is_Some e) /\
  (forall commits e1 t1 allPRCommits err t2,
      loadCommitsForRepo client fuel owner repo committer (time.AddDate now 0 0 (- days)) =
        Some ((commits, e1), t1) ->
      loadCommitsFromAllRepoPRs client fuel owner repo (time.AddDate now 0 0 (- days)) =
        Some ((allPRCommits, Some err), t2) ->
      masterCommitsForSingleRepo client fuel now owner repo committer lambda days =
        Some (([], 0, Some err), t1 ++ t2)).
Proof.
  split; [|split].
  - intros prs1 pr prs2 pool e err Hfresh Hfail.
    rewrite walkPullRequests_fresh by done.
    rewrite flat_map_app, lastError_app. cbn [flat_map lastError].
    unfold firstPageCommits at 2. by rewrite Hfail.
  - intros allPRCommits e t Hload Hfailed.
    eapply walkPullRequestPages_records; [exact Hload|by right].
  - intros commits e1 t1 allPRCommits err t2 H1 H2.
    by rewrite (masterCommitsForSingleRepo_eq _ _ _ _ _ _ _ _ _ _ _ _ _ _ H1 H2).
Qed.

Lemma pr_commit_failure_is_recorded_and_returned_witness :
  walkPullRequests Sample.prCommitsFail "org" "repo" (time.AddDate Sample.now 0 0 (- 30))
    [Sample.prAt 1 2 1; Sample.prAt 2 3 2] [] None =
    Some (([Sample.commit "C" ["A"]], Some "504 Gateway Timeout", false),
          [ReqPullRequestsListCommits "org" "repo" 1 0;
           ReqPullRequestsListCommits "org" "repo" 2 0]) /\
  masterCommitsForSingleRepo Sample.prCommitsFail 2 Sample.now "org" "repo" ""
    isCommitInList 30 =
    Some (([], 0, Some "504 Gateway Timeout"),
          [ReqListCommits "org" "repo" (time.AddDate Sample.now 0 0 (- 30)) 0] ++
          [ReqPullRequestsList "org" "repo" "open,closed" 0;
           ReqPullRequestsListCommits "org" "repo" 1 0;
           ReqPullRequestsListCommits "org" "repo" 2 0]).
Proof.
  destruct (pr_commit_failure_is_recorded_and_returned Sample.prCommitsFail 2 Sample.now
              "org" "repo" "" isCommitInList 30) as (Hgo & _ & Hgate).
  split.
  - apply (Hgo [] (Sample.prAt 1 2 1) [Sample.prAt 2 3 2] [] None "504 Gateway Timeout").
    + repeat constructor.
    + reflexivity.
  - apply (Hgate [Sample.commit "A" ["p"]; Sample.commit "C" ["A"]] None
             [ReqListCommits "org" "repo" (time.AddDate Sample.now 0 0 (- 30)) 0]
             [Sample.commit "C" ["A"]]); reflexivity.
Defined.

(** C3 as stated fails.  The commits of pull request 1 cannot be fetched;
    the branch commits [A; C] and the pool [C] are at hand and the direct
    commits among them would be [A], yet [masterCommitsForSingleRepo]
    returns the error with no commits and count 0. *)
Lemma direct_commits_not_computed_after_pr_commit_failure :
  loadCommitsForRepo Sample.prCommitsFail 2 "org" "repo" ""
    (time.AddDate Sample.now 0 0 (- 30)) =
    Some (([Sample.commit "A" ["p"]; Sample.commit "C" ["A"]], None),
          [ReqListCommits "org" "repo" (time.AddDate Sample.now 0 0 (- 30)) 0]) /\
  loadCommitsFromAllRepoPRs Sample.prCommitsFail 2 "org" "repo"
    (time.AddDate Sample.now 0 0 (- 30)) =
    Some (([Sample.commit "C" ["A"]], Some "504 Gateway Timeout"),
          [ReqPullRequestsList "org" "repo" "open,closed" 0;
           ReqPullRequestsListCommits "org" "repo" 1 0;
           ReqPullRequestsListCommits "org" "repo" 2 0]) /\
  keepMasterCommits isCommitInList
    [Sample.commit "A" ["p"]; Sample.commit "C" ["A"]] [Sample.commit "C" ["A"]] =
    [Sample.commit "A" ["p"]] /\
  ~ exists e t,
      masterCommitsForSingleRepo Sample.prCommitsFail 2 Sample.now "org" "repo" ""
        isCommitInList 30 = Some (([Sample.commit "A" ["p"]], 2, e), t).
Proof.
  repeat split. intros (e & t & H). vm_compute in H. discriminate H.
Qed.

(* ------------------------------------------------------------------ *)
(** ** Sorting *)

Section SortFacts.
Context {A : Type}.
Variable less : A -> A -> bool.

Lemma insert_perm x l : Permutation (insert less x l) (x :: l).
Proof.
  induction l as [|y l IH]; simpl; [done|].
  destruct (less y x); [|done].
  rewrite IH. apply perm_swap.
Qed.

Lemma insertionSort_perm l : Permutation (insertionSort less l) l.
Proof.
  induction l as [|x l IH]; simpl; [done|].
  rewrite insert_perm. by constructor.
Qed.



Hypothesis less_order : LessOrder less.

Lemma insert_sorted x l :
  StronglySorted (NotAfter less) l -> StronglySorted (NotAfter less) (insert less x l).
Proof.
  induction 1 as [|y l Hsorted IH Hall]; simpl.
  - repeat constructor.
  - destruct (less y x) eqn:Hyx.
    + constructor; [done|].
      eapply Permutation_Forall; [symmetry; apply insert_perm|].
      constructor; [|done]. by apply (less_asym less less_order).
    + constructor; [by constructor|].
      constructor; [exact Hyx|].
      eapply Forall_impl; [exact Hall|]. intros z Hz.
      by apply (less_negtrans less less_order x y z).
Qed.

Lemma insertionSort_sorted l : StronglySorted (NotAfter less) (insertionSort less l).
Proof.
  induction l as [|x l IH]; simpl; [constructor|]. by apply insert_sorted.
Qed.


End SortFacts.

Lemma stableSort_contract : SortContract stableSort.
Proof.
  split; intros; [apply insertionSort_perm|by apply insertionSort_sorted].
Qed.


Lemma sort_Sort_nil sort_Sort A (less : A -> A -> bool) :
  SortContract sort_Sort -> sort_Sort A less [] = [].
Proof. intros [Hperm _]. apply Permutation_nil. symmetry. apply Hperm. Qed.

Lemma sort_Sort_singleton sort_Sort A (less : A -> A -> bool) x :
  SortContract sort_Sort -> sort_Sort A less [x] = [x].
Proof. intros [Hperm _]. apply Permutation_length_1_inv. symmetry. apply Hperm. Qed.

(** Comparing lowercased names is a strict weak order, and so is
    comparing creation times. *)
Lemma ltb_lt s1 s2 : String.ltb s1 s2 = true <-> OrderedTypeEx.String_as_OT.lt s1 s2.
Proof.
  rewrite <- OrderedTypeEx.String_as_OT.cmp_lt. unfold String.ltb, OrderedTypeEx.String_as_OT.cmp.
  destruct (String.compare s1 s2); split; congruence.
Qed.




Lemma PROpenDurationSorter_order : LessOrder PROpenDurationSorter_Less.
Proof.
  unfold PROpenDurationSorter_Less, time.Before. split.
  - intros x y. rewrite Z.ltb_lt, Z.ltb_ge. lia.
  - intros x y z. rewrite !Z.ltb_ge. lia.
Qed.

(* ------------------------------------------------------------------ *)
(** ** Active repositories *)




(** The repository pushed to exactly 30 days ago is kept, the one pushed
    to 31 days ago is not. *)
Example window_bound_is_kept :
  isActive Sample.now 30 (Sample.repoAt "d" 30) = true /\
  isActive Sample.now 30 (Sample.repoAt "stale" 31) = false.
Proof. split; reflexivity. Qed.


(* ------------------------------------------------------------------ *)
(** ** Open pull requests *)

(** The loop over a repository's pull requests keeps those before the
    first one that is too new, and nothing from there on. *)
Lemma addOpenPRs_prefix now daysPROpen pullRequests : forall allOpenPRs,
  addOpenPRs now daysPROpen pullRequests allOpenPRs =
  allOpenPRs ++
  takeWhile (fun pr => negb (Qlt_bool (numberOfDays now pr) (inject_Z daysPROpen)))
             pullRequests.
Proof.
  induction pullRequests as [|pr rest IH]; intros allOpenPRs; simpl.
  - by rewrite app_nil_r.
  - destruct (Qlt_bool (numberOfDays now pr) (inject_Z daysPROpen)); simpl.
    + by rewrite app_nil_r.
    + by rewrite IH, <- app_assoc.
Qed.

(** C2 fails on the code.  The active repository "api" lists pull request
    1, open for 2 days, before pull request 2, open for 10 days.  With a
    minimum age of 5 days the loop is left at pull request 1, and pull
    request 2, which is old enough, is not in the output. *)
Theorem young_pull_request_hides_later_ones (sort_Sort : SortFn) :
  SortContract sort_Sort ->
  loadPRsForRepo Sample.youngFirst 2 "org" "api" =
    Some (([Sample.prAt 1 2 2; Sample.prAt 2 10 10], None),
          [ReqPullRequestsList "org" "api" "open" 0]) /\
  Qlt_bool (numberOfDays Sample.now (Sample.prAt 2 10 10)) (inject_Z 5) = false /\
  loadOpenPRsForOrganization Sample.youngFirst sort_Sort 2 Sample.now "org" 5 30 =
    Some (([], None),
          [ReqListByOrg "org" 0; ReqPullRequestsList "org" "api" "open" 0]).
Proof.
  intros Hsort. split; [reflexivity|]. split; [reflexivity|].
  unfold loadOpenPRsForOrganization, loadActiveReposForOrganization.
  assert (Hrepos : loadReposForOrganization Sample.youngFirst 2 "org" =
                   Some (([Sample.repoAt "api" 1], None), [ReqListByOrg "org" 0]))
    by reflexivity.
  rewrite Hrepos. cbn [bind ret].
  assert (Hactive : List.filter (isActive Sample.now 30) [Sample.repoAt "api" 1] =
                    [Sample.repoAt "api" 1]) by reflexivity.
  rewrite Hactive, (sort_Sort_singleton _ _ _ _ Hsort).
  assert (Hopen : openPRsOfRepos Sample.youngFirst 2 Sample.now "org" 5
                    [Sample.repoAt "api" 1] [] None =
                  Some (([], None), [ReqPullRequestsList "org" "api" "open" 0]))
    by reflexivity.
  rewrite Hopen. cbn [bind ret]. by rewrite (sort_Sort_nil _ _ _ Hsort).
Qed.

Lemma young_pull_request_hides_later_ones_witness :
  loadPRsForRepo Sample.youngFirst 2 "org" "api" =
    Some (([Sample.prAt 1 2 2; Sample.prAt 2 10 10], None),
          [ReqPullRequestsList "org" "api" "open" 0]) /\
  Qlt_bool (numberOfDays Sample.now (Sample.prAt 2 10 10)) (inject_Z 5) = false /\
  loadOpenPRsForOrganization Sample.youngFirst stableSort 2 Sample.now "org" 5 30 =
    Some (([], None),
          [ReqListByOrg "org" 0; ReqPullRequestsList "org" "api" "open" 0]).
Proof.
  apply (young_pull_request_hides_later_ones stableSort). exact stableSort_contract.
Defined.

(* ------------------------------------------------------------------ *)
(** ** Pages of a pull request's commits *)

(** Every request for a pull request's commits asks for page 0. *)
Lemma walkPullRequests_asks_page_0 client owner repo timeLimit prs :
  forall pool e r t o p number page,
    walkPullRequests client owner repo timeLimit prs pool e = Some (r, t) ->
    In (ReqPullRequestsListCommits o p number page) t -> page = 0.
Proof.
  induction prs as [|pr rest IH]; intros pool e r t o p number page.
  - simpl. by intros [= <- <-] [].
  - rewrite walkPullRequests_cons. destruct (olderThan timeLimit pr).
    { by intros [= <- <-] []. }
    destruct (PullRequests_ListCommits client owner repo (PullRequest_Number pr) 0)
      as [err|cs nx].
    + destruct (walkPullRequests _ _ _ _ rest pool (Some err)) as [[r1 t1]|] eqn:Hrec;
        [|done].
      intros [= <- <-] [Heq|Hin]; [congruence|]. by eapply IH.
    + destruct (walkPullRequests _ _ _ _ rest (pool ++ cs) e) as [[r1 t1]|] eqn:Hrec;
        [|done].
      intros [= <- <-] [Heq|Hin]; [congruence|]. by eapply IH.
Qed.

Lemma loadCommitsFromAllRepoPRs_asks_page_0 client fuel owner repo timeLimit r t
    o p number page :
  loadCommitsFromAllRepoPRs client fuel owner repo timeLimit = Some (r, t) ->
  In (ReqPullRequestsListCommits o p number page) t -> page = 0.
Proof.
  unfold loadCommitsFromAllRepoPRs. generalize 0 at 1. generalize (@nil RepositoryCommit).
  generalize (@None error). revert r t.
  induction fuel as [|n IH]; intros r t e pool pg; [done|].
  rewrite walkPullRequestPages_S.
  destruct (PullRequests_List client owner repo "open,closed" pg) as [err|prs next].
  { by intros [= <- <-] [|[]]. }
  destruct (walkPullRequests client owner repo timeLimit prs pool e)
    as [[[[p1 e1] o1] t1]|] eqn:Hwalk; [|done].
  destruct ((next =? 0) || o1).
  - intros [= <- <-] [Heq|Hin]; [done|].
    by eapply walkPullRequests_asks_page_0.
  - destruct (walkPullRequestPages client n owner repo timeLimit next p1 e1)
      as [[r2 t2]|] eqn:Hrec; [|done].
    intros [= <- <-] [Heq|Hin]; [done|]. apply in_app_or in Hin as [Hin|Hin].
    + by eapply walkPullRequests_asks_page_0.
    + by eapply IH.
Qed.

(** C6 fails on the code.  Pull request 7 is within the time window and
    its commits come in two pages, [c1] and then [c2].  Only the first
    page is asked for: the pool holds [c1] and not [c2]. *)
Theorem only_first_page_of_pr_commits_is_fetched :
  olderThan (Sample.now - 30 * Sample.day) (Sample.prAt 7 2 1) = false /\
  PageWalk (PullRequests_ListCommits Sample.pagedPRCommits "org" "repo" 7) 0
    [(0, [Sample.commit "c1" ["p"]]); (2, [Sample.commit "c2" ["c1"]])] None /\
  loadCommitsFromAllRepoPRs Sample.pagedPRCommits 5 "org" "repo"
    (Sample.now - 30 * Sample.day) =
    Some (([Sample.commit "c1" ["p"]], None),
          [ReqPullRequestsList "org" "repo" "open,closed" 0;
           ReqPullRequestsListCommits "org" "repo" 7 0]).
Proof.
  split; [reflexivity|]. split; [|reflexivity].
  eapply walk_next; [reflexivity|lia|]. apply walk_last. reflexivity.
Qed.

(* ------------------------------------------------------------------ *)
(** ** The scan of an organisation *)

Section ScanFacts.
Variable client : Client.
Variable fuel : nat.
Variable now : time.Time.
Variable owner committer : string.
Variable lambda : RepositoryCommit -> list RepositoryCommit -> bool.
Variable days : Z.

Abbreviation master := (fun repoName =>
  masterCommitsForSingleRepo client fuel now owner repoName committer lambda days).
Abbreviation scan := (commitsOfRepos client fuel now owner committer lambda days).
Abbreviation direct := (directCommitsOf client fuel now owner committer lambda days).
Abbreviation add := (addRepository client fuel now owner committer lambda days).
Abbreviation requests := (scanRequests client fuel now owner committer lambda days).

Lemma commitsOfRepos_cons repository rest m total :
  scan (repository :: rest) m total =
  match master (Repository_Name repository) with
  | None => None
  | Some ((_, _, Some err), t) => Some ((None, 0, Some err), t)
  | Some ((masterCommits, totalRepoCommits, None), t) =>
      match scan rest (add m repository)
              (match masterCommits with
               | [] => total
               | _ => total + totalRepoCommits
               end) with
      | Some (r, t') => Some (r, t ++ t')
      | None => None
      end
  end.
Proof.
  cbn [commitsOfRepos]. unfold add, addRepository, directCommitsOf.
  destruct (master (Repository_Name repository)) as [[[[mc n] [err|]] t]|];
    cbn [bind ret]; [by rewrite app_nil_r| |done].
  destruct mc as [|c mc]; [done|].
  replace (0 <? Z.of_nat (length (c :: mc))) with true; [done|].
  symmetry. apply Z.ltb_lt. simpl. lia.
Qed.

(** The first repository whose aggregation fails ends the scan: the map
    built so far is dropped, and nothing is asked about the repositories
    after it. *)
Lemma commitsOfRepos_abort rs1 : forall repository rs2 m total masterCommits n err t,
  Forall (fun r => exists mc k t', master (Repository_Name r) = Some ((mc, k, None), t')) rs1 ->
  master (Repository_Name repository) = Some ((masterCommits, n, Some err), t) ->
  scan (rs1 ++ repository :: rs2) m total =
  Some ((None, 0, Some err), requests rs1 ++ t).
Proof.
  induction rs1 as [|r rs1 IH]; intros repository rs2 m total mc n err t Hok Hfail.
  - simpl app. by rewrite commitsOfRepos_cons, Hfail.
  - inversion Hok as [|? ? (mc' & k & t' & Hr) Hrest]; subst.
    rewrite <- app_comm_cons, commitsOfRepos_cons, Hr.
    rewrite (IH _ _ _ _ _ _ _ _ Hrest Hfail).
    unfold requests. simpl. rewrite Hr. simpl. by rewrite app_assoc.
Qed.

(** A scan that returns a map went through every repository without
    error, and the map is the one of [addRepository]. *)
Lemma commitsOfRepos_map rs : forall m total m' total' e t,
  scan rs m total = Some ((Some m', total', e), t) ->
  e = None /\ m' = foldl add m rs /\
  Forall (fun r => exists mc k t', master (Repository_Name r) = Some ((mc, k, None), t')) rs.
Proof.
  induction rs as [|r rs IH]; intros m total m' total' e t.
  - simpl. intros [= <- <- <- <-]. by repeat split.
  - rewrite commitsOfRepos_cons.
    destruct (master (Repository_Name r)) as [[[[mc n] [err|]] t1]|] eqn:Hr; [done| |done].
    destruct (scan rs _ _) as [[res t2]|] eqn:Hrec; [|done].
    intros [= -> <-]. apply IH in Hrec as (-> & -> & Hall).
    split; [done|]. split; [done|]. constructor; [|done]. by exists mc, n, t1.
Qed.

(** When the aggregation of every repository returns without error, the
    scan returns the map of [addRepository] and has asked about each
    repository in turn. *)
Lemma commitsOfRepos_ok rs : forall m total,
  Forall (fun r => exists mc k t', master (Repository_Name r) = Some ((mc, k, None), t')) rs ->
  exists total',
    scan rs m total = Some ((Some (foldl add m rs), total', None), requests rs).
Proof.
  induction rs as [|r rs IH]; intros m total Hok.
  - by exists total.
  - inversion Hok as [|? ? (mc & k & t' & Hr) Hrest]; subst.
    rewrite commitsOfRepos_cons, Hr.
    destruct (IH (add m r) (match mc with [] => total | _ => total + k end) Hrest)
      as [total' ->].
    exists total'. unfold requests. simpl. by rewrite Hr.
Qed.

Lemma lookup_addRepository m repository name :
  add m repository !! name =
  match direct (Repository_Name repository) with
  | [] => m !! name
  | masterCommits =>
      if decide (Repository_Name repository = name) then Some masterCommits else m !! name
  end.
Proof.
  unfold add, addRepository. destruct (direct (Repository_Name repository)); [done|].
  by rewrite lookup_insert.
Qed.

(** A name that is not scanned, or whose repository has no direct
    commits, gets no entry. *)
Lemma lookup_foldl_addRepository_other rs : forall m name,
  ~ In name (map Repository_Name rs) \/ direct name = [] ->
  foldl add m rs !! name = m !! name.
Proof.
  induction rs as [|r rs IH]; intros m name Hname; [done|].
  simpl. rewrite IH, lookup_addRepository.
  - destruct (direct (Repository_Name r)) as [|c mc] eqn:Hd; [done|].
    case_decide as Heq; [|done]. subst name. destruct Hname as [Hnot|Hempty].
    + exfalso. apply Hnot. by left.
    + congruence.
  - destruct Hname as [Hnot|Hempty]; [left|by right].
    intros Hin. apply Hnot. by right.
Qed.

(** A repository that is scanned and has direct commits gets them as its
    entry. *)
Lemma lookup_foldl_addRepository_direct rs : forall m name,
  In name (map Repository_Name rs) -> direct name <> [] ->
  foldl add m rs !! name = Some (direct name).
Proof.
  induction rs as [|r rs IH]; intros m name Hin Hdirect; [done|].
  simpl. destruct (in_dec string_dec name (map Repository_Name rs)) as [Hrest|Hrest].
  - by apply IH.
  - destruct Hin as [Heq|Hin]; [|done]. subst name.
    rewrite lookup_foldl_addRepository_other by (by left).
    rewrite lookup_addRepository.
    destruct (direct (Repository_Name r)); [done|]. by rewrite decide_True.
Qed.

End ScanFacts.

(** C8.  In a scan of the whole organisation ([repo] empty), the first
    repository whose commit aggregation fails ends the scan: the error is
    returned with a nil map and count 0, and the repositories after it are
    not looked at.  When no aggregation fails, the scan returns a map
    whose entries are those of the active repositories that have direct
    commits; a repository whose list of direct commits is empty has no
    entry. *)
Theorem organisation_scan_aborts_and_omits_empty
    (sort_Sort : SortFn) (client : Client) (fuel : nat) (now : time.Time)
    (owner committer : string)
    (lambda : RepositoryCommit -> list RepositoryCommit -> bool) (days : Z)
    (repositories : list Repository) (t0 : Trace) :
  loadActiveReposForOrganization client sort_Sort fuel now owner days =
    Some ((repositories, None), t0) ->
  (forall rs1 repository rs2 masterCommits n err t,
      repositories = rs1 ++ repository :: rs2 ->
      Forall (fun r => exists mc k t',
                  masterCommitsForSingleRepo client fuel now owner (Repository_Name r)
                    committer lambda days = Some ((mc, k, None), t')) rs1 ->
      masterCommitsForSingleRepo client fuel now owner (Repository_Name repository)
        committer lambda days = Some ((masterCommits, n, Some err), t) ->
      makeCommitsList client sort_Sort fuel now owner "" committer lambda days =
        Some ((None, 0, Some err),
              t0 ++ scanRequests client fuel now owner committer lambda days rs1 ++ t)) /\
  (Forall (fun r => exists mc k t',
               masterCommitsForSingleRepo client fuel now owner (Repository_Name r)
                 committer lambda days = Some ((mc, k, None), t')) repositories ->
   exists m total,
     makeCommitsList client sort_Sort fuel now owner "" committer lambda days =
       Some ((Some m, total, None),
             t0 ++ scanRequests client fuel now owner committer lambda days repositories) /\
     (forall name l,
         m !! name = Some l <->
         l <> [] /\
         exists repository n t',
           In repository repositories /\ Repository_Name repository = name /\
           masterCommitsForSingleRepo client fuel now owner name committer lambda days =
             Some ((l, n, None), t')) /\
     (forall repository n t',
         In repository repositories ->
         masterCommitsForSingleRepo client fuel now owner (Repository_Name repository)
           committer lambda days = Some (([], n, None), t') ->
         m !! Repository_Name repository = None)).
Proof.
  intros Hactive.
  assert (Hmake :
    makeCommitsList client sort_Sort fuel now owner "" committer lambda days =
    match commitsOfRepos client fuel now owner committer lambda days repositories ∅ 0 with
    | Some (r, t) => Some (r, t0 ++ t)
    | None => None
    end).
  { unfold makeCommitsList. cbn [String.eqb]. rewrite Hactive. reflexivity. }
  rewrite Hmake. split.
  - intros rs1 repository rs2 mc n err t -> Hok Hfail.
    by rewrite (commitsOfRepos_abort client fuel now owner committer lambda days
                  rs1 repository rs2 ∅ 0 mc n err t Hok Hfail).
  - intros Hall.
    destruct (commitsOfRepos_ok client fuel now owner committer lambda days
                repositories ∅ 0 Hall) as [total ->].
    exists (foldl (addRepository client fuel now owner committer lambda days) ∅ repositories),
      total.
    rewrite Forall_forall in Hall.
    assert (Hdirect : forall name l n t',
               masterCommitsForSingleRepo client fuel now owner name committer lambda days =
                 Some ((l, n, None), t') ->
               directCommitsOf client fuel now owner committer lambda days name = l).
    { intros name l n t' H. unfold directCommitsOf. by rewrite H. }
    split; [done|]. split.
    + intros name l. split.
      * intros Hlookup.
        destruct (in_dec string_dec name (map Repository_Name repositories)) as [Hin|Hnot].
        -- apply in_map_iff in Hin as (r & <- & Hin).
           destruct (Hall r) as (mc & k & t' & Hr); [by apply list_elem_of_In|].
           destruct mc as [|c mc].
           ++ rewrite lookup_foldl_addRepository_other, lookup_empty in Hlookup; [done|].
              right. by eapply Hdirect.
           ++ rewrite lookup_foldl_addRepository_direct in Hlookup.
              ** rewrite (Hdirect _ _ _ _ Hr) in Hlookup. injection Hlookup as <-.
                 split; [done|]. by exists r, k, t'.
              ** apply in_map_iff. by exists r.
              ** by rewrite (Hdirect _ _ _ _ Hr).
        -- rewrite lookup_foldl_addRepository_other, lookup_empty in Hlookup; [done|].
           by left.
      * intros (Hne & r & n & t' & Hin & <- & Hr).
        rewrite lookup_foldl_addRepository_direct.
        -- by rewrite (Hdirect _ _ _ _ Hr).
        -- apply in_map_iff. by exists r.
        -- by rewrite (Hdirect _ _ _ _ Hr).
    + intros r n t' Hin Hr.
      rewrite lookup_foldl_addRepository_other, lookup_empty; [done|].
      right. by eapply Hdirect.
Qed.

Lemma organisation_scan_aborts_and_omits_empty_witness :
  makeCommitsList Sample.threeRepos stableSort 2 Sample.now "big" "" "" isCommitInList 30 =
    Some ((None, 0, Some "500 Internal Server Error"),
          [ReqListByOrg "big" 0] ++
          scanRequests Sample.threeRepos 2 Sample.now "big" "" isCommitInList 30
            [Sample.repoAt "api" 1; Sample.repoAt "docs" 2] ++
          [ReqListCommits "big" "web" (time.AddDate Sample.now 0 0 (- 30)) 0;
           ReqPullRequestsList "big" "web" "open,closed" 0]) /\
  exists m total,
    makeCommitsList Sample.threeRepos stableSort 2 Sample.now "org" "" "" isCommitInList 30 =
      Some ((Some m, total, None),
            [ReqListByOrg "org" 0] ++
            scanRequests Sample.threeRepos 2 Sample.now "org" "" isCommitInList 30
              [Sample.repoAt "api" 1; Sample.repoAt "docs" 2]) /\
    m !! "api" = Some [Sample.commit "A" ["p"]] /\
    m !! "docs" = None.
Proof.
  destruct (organisation_scan_aborts_and_omits_empty stableSort Sample.threeRepos 2
              Sample.now "big" "" isCommitInList 30
              [Sample.repoAt "api" 1; Sample.repoAt "docs" 2; Sample.repoAt "web" 1;
               Sample.repoAt "zeta" 3]
              [ReqListByOrg "big" 0] eq_refl) as [Habort _].
  destruct (organisation_scan_aborts_and_omits_empty stableSort Sample.threeRepos 2
              Sample.now "org" "" isCommitInList 30
              [Sample.repoAt "api" 1; Sample.repoAt "docs" 2]
              [ReqListByOrg "org" 0] eq_refl) as [_ Hmap].
  split.
  - apply (Habort [Sample.repoAt "api" 1; Sample.repoAt "docs" 2] (Sample.repoAt "web" 1)
             [Sample.repoAt "zeta" 3] [] 0 "500 Internal Server Error"
             [ReqListCommits "big" "web" (time.AddDate Sample.now 0 0 (- 30)) 0;
              ReqPullRequestsList "big" "web" "open,closed" 0]).
    + reflexivity.
    + repeat constructor; do 3 eexists; vm_compute; reflexivity.
    + vm_compute; reflexivity.
  - destruct Hmap as (m & total & Hrun & Hentries & Homit).
    + repeat constructor; do 3 eexists; vm_compute; reflexivity.
    + exists m, total. split; [exact Hrun|]. split.
      * apply Hentries. split; [discriminate|].
        exists (Sample.repoAt "api" 1), 2,
          [ReqListCommits "org" "api" (time.AddDate Sample.now 0 0 (- 30)) 0;
           ReqPullRequestsList "org" "api" "open,closed" 0;
           ReqPullRequestsListCommits "org" "api" 1 0].
        split; [by left|]. split; [reflexivity|]. vm_compute; reflexivity.
      * apply (Homit (Sample.repoAt "docs" 2) 1
                 [ReqListCommits "org" "docs" (time.AddDate Sample.now 0 0 (- 30)) 0;
                  ReqPullRequestsList "org" "docs" "open,closed" 0;
                  ReqPullRequestsListCommits "org" "docs" 1 0]).
        -- right. by left.
        -- vm_compute; reflexivity.
Defined.

(* ------------------------------------------------------------------ *)
(** ** Classification of issues *)

(** C9, as the code has it.  An issue is a backlog item exactly when it
    matches none of the rules Sprint, InProgress, ReadyForQA, QAPass and
    Done; so every issue matches at least one of the six rules, and a
    backlog item matches no other.  The five other rules are tested
    independently of one another. *)
Theorem backlog_is_the_complement (issue : Issue) :
  (isBacklogItem issue = true <->
   isSprintItem issue = false /\ isInProgress issue = false /\
   isReadyForQA issue = false /\ isQAPass issue = false /\ isDone issue = false) /\
  (1 <= bucketsOf issue)%nat /\
  (isBacklogItem issue = true -> bucketsOf issue = 1%nat).
Proof.
  unfold bucketsOf, canonicalRules, isBacklogItem. cbn [List.filter].
  destruct (isSprintItem issue), (isInProgress issue), (isReadyForQA issue),
    (isQAPass issue), (isDone issue); simpl; repeat split; try done; try lia;
    intros; intuition discriminate.
Qed.

(** C9 as stated fails: an issue labelled "Sprint 12" and "Done" matches
    both the Sprint rule and the Done rule, one labelled "QA Pass" and
    "Ready for QA" matches both the ReadyForQA rule and the QAPass rule. *)
Lemma issue_in_two_buckets :
  isSprintItem (Sample.issue 1 ["Sprint 12"; "Done"]) = true /\
  isDone (Sample.issue 1 ["Sprint 12"; "Done"]) = true /\
  bucketsOf (Sample.issue 1 ["Sprint 12"; "Done"]) = 2%nat /\
  isReadyForQA (Sample.issue 2 ["QA Pass"; "Ready for QA"]) = true /\
  isQAPass (Sample.issue 2 ["QA Pass"; "Ready for QA"]) = true /\
  bucketsOf (Sample.issue 2 ["QA Pass"; "Ready for QA"]) = 2%nat.
Proof. repeat split; reflexivity. Qed.

(* ------------------------------------------------------------------ *)
(** ** Label strings *)

Lemma append_String c (s1 s2 : string) : String c s1 +:+ s2 = String c (s1 +:+ s2).
Proof. reflexivity. Qed.

Lemma append_empty_l (s : string) : "" +:+ s = s.
Proof. reflexivity. Qed.

Lemma append_empty_r (s : string) : s +:+ "" = s.
Proof. induction s as [|c s IH]; [done|]. by rewrite append_String, IH. Qed.

Lemma append_assoc (s1 s2 s3 : string) : (s1 +:+ s2) +:+ s3 = s1 +:+ (s2 +:+ s3).
Proof. induction s1 as [|c s1 IH]; [done|]. by rewrite !append_String, IH. Qed.

(** A pattern without a space that starts [s1], a space and [s2] lies
    within [s1]. *)
Lemma prefix_before_space pat : forall s1 s2,
  spaceFree pat = true ->
  String.prefix pat (s1 +:+ String " " s2) = String.prefix pat s1.
Proof.
  induction pat as [|c pat IH]; intros s1 s2 Hfree.
  - by destruct s1.
  - simpl in Hfree. apply andb_true_iff in Hfree as [Hc Hfree].
    destruct s1 as [|d s1].
    + rewrite append_empty_l. simpl.
      destruct (ascii_dec c " ") as [->|Hne]; [done|done].
    + rewrite append_String. simpl. destruct (ascii_dec c d); [by apply IH|done].
Qed.

Lemma Contains_across_space pat s1 s2 :
  spaceFree pat = true ->
  strings.Contains (s1 +:+ String " " s2) pat =
  strings.Contains s1 pat || strings.Contains s2 pat.
Proof.
  intros Hfree. induction s1 as [|d s1 IH].
  - rewrite append_empty_l. cbn [strings.Contains].
    rewrite <- (append_empty_l (String " " s2)) at 1.
    rewrite (prefix_before_space pat "" s2 Hfree). by rewrite orb_false_r.
  - rewrite append_String. cbn [strings.Contains].
    rewrite <- append_String.
    rewrite (prefix_before_space pat (String d s1) s2 Hfree), IH.
    by rewrite orb_assoc.
Qed.

Lemma labelString_app labels : forall retval,
  labelString labels retval = retval +:+ labelString labels "".
Proof.
  induction labels as [|label rest IH]; intros retval; cbn [labelString].
  - by rewrite append_empty_r.
  - rewrite IH, (IH ("" +:+ _)), append_empty_l, !append_assoc. done.
Qed.

(** A pattern that is not empty and holds no space occurs in the label
    string exactly when it occurs in the lowercased name of one label:
    no match runs over two labels. *)
Lemma Contains_labelString pat labels :
  spaceFree pat = true -> pat <> "" ->
  strings.Contains (getLabelString (Some labels)) pat = someLabelContains labels pat.
Proof.
  intros Hfree Hne. unfold getLabelString.
  change (default [] (Some labels)) with labels.
  induction labels as [|label rest IH].
  - destruct pat; [done|]. reflexivity.
  - cbn [labelString someLabelContains existsb].
    rewrite labelString_app, append_empty_l, append_assoc, append_String, append_empty_l.
    by rewrite Contains_across_space, IH.
Qed.

(** X1.  Each label rule looks for its words in single labels: the Sprint
    rule holds exactly when some label's lowercased name contains
    "sprint", and likewise for the others; the words of one rule may come
    from different labels, but no word is found across two labels. *)
Theorem label_rules_match_single_labels (issue : Issue) :
  let labels := default [] (Issue_Labels issue) in
  isSprintItem issue = someLabelContains labels "sprint" /\
  isDone issue = someLabelContains labels "done" /\
  isInProgress issue =
    someLabelContains labels "in" && someLabelContains labels "progress" /\
  isReadyForQA issue =
    someLabelContains labels "ready" && someLabelContains labels "for" &&
    someLabelContains labels "qa" /\
  isQAPass issue = someLabelContains labels "qa" && someLabelContains labels "pass" /\
  isReadyForReview issue =
    someLabelContains labels "ready" && someLabelContains labels "for" &&
    someLabelContains labels "review" /\
  isProductBacklogItem issue =
    someLabelContains labels "product" && someLabelContains labels "backlog".
Proof.
  intros labels.
  assert (H : forall pat, spaceFree pat = true -> pat <> "" ->
              strings.Contains (getLabelString (Issue_Labels issue)) pat =
              someLabelContains labels pat).
  { intros pat Hfree Hne. rewrite <- (Contains_labelString pat labels Hfree Hne).
    subst labels. by destruct (Issue_Labels issue). }
  unfold isSprintItem, isDone, isInProgress, isReadyForQA, isQAPass, isReadyForReview,
    isProductBacklogItem.
  cbv zeta. rewrite !H by done. done.
Qed.

(** X2.  An issue without labels, whether its label list is nil or empty,
    matches none of the rules and is a backlog item. *)
Theorem unlabelled_issue_is_backlog (issue : Issue) :
  default [] (Issue_Labels issue) = [] ->
  isBacklogItem issue = true /\
  isSprintItem issue = false /\ isInProgress issue = false /\
  isReadyForQA issue = false /\ isQAPass issue = false /\ isDone issue = false /\
  isReadyForReview issue = false /\ isProductBacklogItem issue = false.
Proof.
  intros Hnone. unfold isBacklogItem, isSprintItem, isInProgress, isReadyForQA, isQAPass,
    isDone, isReadyForReview, isProductBacklogItem, getLabelString.
  rewrite Hnone. repeat split; reflexivity.
Qed.

Lemma unlabelled_issue_is_backlog_witness :
  isBacklogItem (Sample.issue 4 []) = true /\
  isSprintItem (Sample.issue 4 []) = false /\ isInProgress (Sample.issue 4 []) = false /\
  isReadyForQA (Sample.issue 4 []) = false /\ isQAPass (Sample.issue 4 []) = false /\
  isDone (Sample.issue 4 []) = false /\
  isReadyForReview (Sample.issue 4 []) = false /\
  isProductBacklogItem (Sample.issue 4 []) = false.
Proof. apply (unlabelled_issue_is_backlog (Sample.issue 4 [])). reflexivity. Defined.

(* ------------------------------------------------------------------ *)
(** ** Lists of issues *)

Lemma makeIssueList_eq client fuel owner repo assigned lambda issues e t :
  loadIssuesForRepo client fuel owner repo assigned = Some ((issues, e), t) ->
  makeIssueList client fuel owner repo assigned lambda =
  Some (match e with
        | Some _ => ([], e)
        | None =>
            (List.filter (fun issue =>
                            match Issue_Labels issue with
                            | Some _ => lambda issue
                            | None => false
                            end) issues, None)
        end, t).
Proof.
  intros H. unfold makeIssueList. rewrite H. cbn [bind].
  destruct e; simpl; by rewrite app_nil_r.
Qed.

(** X3.  When the issues of the repository are served in full,
    [makeIssueList] returns, in the order served, the issues whose label
    list is not nil and that the predicate accepts, and no error. *)
Theorem makeIssueList_keeps_labelled_matches
    (client : Client) (fuel : nat) (owner repo assigned : string)
    (lambda : Issue -> bool) (ps : list (Z * list Issue)) :
  PageWalk (Issues_ListByRepo client owner repo assigned) 0 ps None ->
  (length ps <= fuel)%nat ->
  exists sprintIssues,
    makeIssueList client fuel owner repo assigned lambda =
      Some ((sprintIssues, None),
            map (ReqIssuesListByRepo owner repo assigned) (map fst ps)) /\
    sublist sprintIssues (itemsServed ps) /\
    forall issue,
      In issue sprintIssues <->
      In issue (itemsServed ps) /\ Issue_Labels issue <> None /\ lambda issue = true.
Proof.
  intros Hwalk Hfuel.
  assert (Hload : loadIssuesForRepo client fuel owner repo assigned =
                  Some ((itemsServed ps, None),
                        map (ReqIssuesListByRepo owner repo assigned) (map fst ps))).
  { unfold loadIssuesForRepo. rewrite (paginate_walk _ _ _ _ _ Hwalk fuel []).
    - unfold pagesAsked. by rewrite app_nil_r.
    - unfold pagesAsked. by rewrite app_nil_r, length_map. }
  rewrite (makeIssueList_eq _ _ _ _ _ lambda _ _ _ Hload).
  eexists. split; [reflexivity|]. split.
  - generalize (itemsServed ps). intros l. induction l as [|i l IH]; simpl; [done|].
    destruct (match Issue_Labels i with Some _ => lambda i | None => false end);
      by constructor.
  - intros issue. rewrite filter_In. destruct (Issue_Labels issue) as [labels|].
    + split; [intros [Hin Hacc]|intros (Hin & _ & Hacc)]; repeat split; auto.
    + split; [intros [_ Hacc]; discriminate|intros (_ & Hnil & _); by destruct Hnil].
Qed.

Lemma makeIssueList_keeps_labelled_matches_witness :
  exists sprintIssues,
    makeIssueList Sample.labelledIssues 1 "org" "repo" "" any =
      Some ((sprintIssues, None),
            map (ReqIssuesListByRepo "org" "repo" "") (map fst
              [(0, [Sample.issue 1 ["Sprint 12"; "bug"]; Sample.issue 2 ["Done"];
                    {| Issue_Number := 3; Issue_Labels := None |};
                    Sample.issue 4 []; Sample.issue 5 ["In Progress"]])])) /\
    sublist sprintIssues
      (itemsServed
         [(0, [Sample.issue 1 ["Sprint 12"; "bug"]; Sample.issue 2 ["Done"];
               {| Issue_Number := 3; Issue_Labels := None |};
               Sample.issue 4 []; Sample.issue 5 ["In Progress"]])]) /\
    forall issue,
      In issue sprintIssues <->
      In issue
        (itemsServed
           [(0, [Sample.issue 1 ["Sprint 12"; "bug"]; Sample.issue 2 ["Done"];
                 {| Issue_Number := 3; Issue_Labels := None |};
                 Sample.issue 4 []; Sample.issue 5 ["In Progress"]])]) /\
      Issue_Labels issue <> None /\ any issue = true.
Proof.
  apply (makeIssueList_keeps_labelled_matches Sample.labelledIssues 1 "org" "repo" "" any).
  - apply walk_last. reflexivity.
  - simpl. lia.
Defined.

(** X4.  When the fetch of the issues fails at some page, [makeIssueList]
    returns the error and no issue at all: the issues of the pages served
    before the failure are dropped, unlike in the page loop itself. *)
Theorem makeIssueList_drops_partial_results
    (client : Client) (fuel : nat) (owner repo assigned : string)
    (lambda : Issue -> bool) (ps : list (Z * list Issue)) (k : Z) (err : error) :
  PageWalk (Issues_ListByRepo client owner repo assigned) 0 ps (Some (k, err)) ->
  (length ps < fuel)%nat ->
  loadIssuesForRepo client fuel owner repo assigned =
    Some ((itemsServed ps, Some err),
          map (ReqIssuesListByRepo owner repo assigned) (map fst ps ++ [k])) /\
  makeIssueList client fuel owner repo assigned lambda =
    Some (([], Some err),
          map (ReqIssuesListByRepo owner repo assigned) (map fst ps ++ [k])).
Proof.
  intros Hwalk Hfuel.
  assert (Hload : loadIssuesForRepo client fuel owner repo assigned =
                  Some ((itemsServed ps, Some err),
                        map (ReqIssuesListByRepo owner repo assigned) (map fst ps ++ [k]))).
  { unfold loadIssuesForRepo. rewrite (paginate_walk _ _ _ _ _ Hwalk fuel []); [done|].
    unfold pagesAsked. rewrite length_app, length_map. simpl. lia. }
  split; [exact Hload|]. by rewrite (makeIssueList_eq _ _ _ _ _ lambda _ _ _ Hload).
Qed.

Lemma makeIssueList_drops_partial_results_witness :
  loadIssuesForRepo Sample.twoPages 2 "org" "repo" "" =
    Some ((itemsServed [(0, [Sample.issue 1 ["sprint"]; Sample.issue 2 ["done"]])],
           Some "502 Bad Gateway"),
          map (ReqIssuesListByRepo "org" "repo" "") (map fst
            [(0, [Sample.issue 1 ["sprint"]; Sample.issue 2 ["done"]])] ++ [2])) /\
  makeIssueList Sample.twoPages 2 "org" "repo" "" isSprintItem =
    Some (([], Some "502 Bad Gateway"),
          map (ReqIssuesListByRepo "org" "repo" "") (map fst
            [(0, [Sample.issue 1 ["sprint"]; Sample.issue 2 ["done"]])] ++ [2])).
Proof.
  apply (makeIssueList_drops_partial_results Sample.twoPages 2 "org" "repo" "" isSprintItem
           [(0, [Sample.issue 1 ["sprint"]; Sample.issue 2 ["done"]])] 2 "502 Bad Gateway").
  - eapply walk_next; [reflexivity|lia|]. apply walk_fail. reflexivity.
  - simpl. lia.
Defined.

(** X5.  With the issues of a repository served in full, the lists of
    [Backlog], [Sprint], [InProgress], [ReadyForQA] and [QAPass] are
    returned without error; no issue of the backlog list is in one of the
    other four, and an issue served with a label list that is in none of
    the five lists matches the Done rule, for which there is no list. *)
Theorem public_issue_lists
    (client : Client) (fuel : nat) (owner repo : string) (ps : list (Z * list Issue)) :
  PageWalk (Issues_ListByRepo client owner repo "") 0 ps None ->
  (length ps <= fuel)%nat ->
  exists backlog sprint inProgress readyForQA qaPass t,
    Backlog client fuel owner repo = Some ((backlog, None), t) /\
    Sprint client fuel owner repo = Some ((sprint, None), t) /\
    InProgress client fuel owner repo = Some ((inProgress, None), t) /\
    ReadyForQA client fuel owner repo = Some ((readyForQA, None), t) /\
    QAPass client fuel owner repo = Some ((qaPass, None), t) /\
    (forall issue,
        In issue backlog ->
        ~ In issue sprint /\ ~ In issue inProgress /\
        ~ In issue readyForQA /\ ~ In issue qaPass) /\
    (forall issue,
        In issue (itemsServed ps) -> Issue_Labels issue <> None ->
        In issue backlog \/ In issue sprint \/ In issue inProgress \/
        In issue readyForQA \/ In issue qaPass \/ isDone issue = true).
Proof.
  intros Hwalk Hfuel.
  assert (Hload : loadIssuesForRepo client fuel owner repo "" =
                  Some ((itemsServed ps, None),
                        map (ReqIssuesListByRepo owner repo "") (map fst ps))).
  { unfold loadIssuesForRepo. rewrite (paginate_walk _ _ _ _ _ Hwalk fuel []).
    - unfold pagesAsked. by rewrite app_nil_r.
    - unfold pagesAsked. by rewrite app_nil_r, length_map. }
  unfold Backlog, Sprint, InProgress, ReadyForQA, QAPass.
  rewrite !(makeIssueList_eq _ _ _ _ _ _ _ _ _ Hload).
  do 6 eexists. do 5 (split; [reflexivity|]).
  assert (Hin : forall lambda issue,
             In issue (List.filter (fun issue => match Issue_Labels issue with
                                                 | Some _ => lambda issue
                                                 | None => false
                                                 end) (itemsServed ps)) <->
             In issue (itemsServed ps) /\ Issue_Labels issue <> None /\
             lambda issue = true).
  { intros lambda issue. rewrite filter_In. destruct (Issue_Labels issue) as [labels|].
    - split; [intros [H1 H2]|intros (H1 & _ & H2)]; repeat split; auto.
    - split; [intros [_ H2]; discriminate|intros (_ & Hnil & _); by destruct Hnil]. }
  split.
  - intros issue Hb. apply Hin in Hb as (_ & _ & Hb).
    rewrite !Hin. unfold isBacklogItem in Hb.
    destruct (isSprintItem issue), (isInProgress issue), (isReadyForQA issue),
      (isQAPass issue); simpl in Hb; try discriminate.
    repeat split; intros (_ & _ & H); discriminate.
  - intros issue Hserved Hlabels. rewrite !Hin. unfold isBacklogItem.
    destruct (isSprintItem issue), (isInProgress issue), (isReadyForQA issue),
      (isQAPass issue), (isDone issue); simpl; tauto.
Qed.

Lemma public_issue_lists_witness :
  exists backlog sprint inProgress readyForQA qaPass t,
    Backlog Sample.labelledIssues 1 "org" "repo" = Some ((backlog, None), t) /\
    Sprint Sample.labelledIssues 1 "org" "repo" = Some ((sprint, None), t) /\
    InProgress Sample.labelledIssues 1 "org" "repo" = Some ((inProgress, None), t) /\
    ReadyForQA Sample.labelledIssues 1 "org" "repo" = Some ((readyForQA, None), t) /\
    QAPass Sample.labelledIssues 1 "org" "repo" = Some ((qaPass, None), t) /\
    (forall issue,
        In issue backlog ->
        ~ In issue sprint /\ ~ In issue inProgress /\
        ~ In issue readyForQA /\ ~ In issue qaPass) /\
    (forall issue,
        In issue
          (itemsServed
             [(0, [Sample.issue 1 ["Sprint 12"; "bug"]; Sample.issue 2 ["Done"];
                   {| Issue_Number := 3; Issue_Labels := None |};
                   Sample.issue 4 []; Sample.issue 5 ["In Progress"]])]) ->
        Issue_Labels issue <> None ->
        In issue backlog \/ In issue sprint \/ In issue inProgress \/
        In issue readyForQA \/ In issue qaPass \/ isDone issue = true).
Proof.
  apply (public_issue_lists Sample.labelledIssues 1 "org" "repo").
  - apply walk_last. reflexivity.
  - simpl. lia.
Defined.

(** X6.  [AssignedTo] with the repository "*" searches the organisation
    with the query "user:<owner> assignee:<login>" and hands back what the
    page loop collected: every issue served, whatever its labels, and on a
    failure the issues of the pages before it together with the error. *)
Theorem AssignedTo_star_searches_organisation
    (client : Client) (fuel : nat) (owner login : string)
    (ps : list (Z * list Issue)) (o : option (Z * error)) :
  PageWalk (Search_Issues client ("user:" +:+ owner +:+ " assignee:" +:+ login)) 0 ps o ->
  (length (pagesAsked ps o) <= fuel)%nat ->
  AssignedTo client fuel owner "*" login =
    Some ((itemsServed ps, option_map snd o),
          map (ReqSearchIssues ("user:" +:+ owner +:+ " assignee:" +:+ login))
              (pagesAsked ps o)).
Proof.
  intros Hwalk Hfuel. unfold AssignedTo, loadIssuesForAssignee. cbn [String.eqb Ascii.eqb].
  by rewrite (paginate_walk _ _ _ _ _ Hwalk fuel []).
Qed.

Lemma AssignedTo_star_searches_organisation_witness :
  AssignedTo Sample.labelledIssues 2 "org" "*" "ann" =
    Some ((itemsServed [(0, [Sample.issue 1 ["Sprint 12"; "bug"]])],
           option_map snd (Some (3, "403 Forbidden"))),
          map (ReqSearchIssues ("user:" +:+ "org" +:+ " assignee:" +:+ "ann"))
              (pagesAsked [(0, [Sample.issue 1 ["Sprint 12"; "bug"]])]
                          (Some (3, "403 Forbidden")))).
Proof.
  apply (AssignedTo_star_searches_organisation Sample.labelledIssues 2 "org" "ann").
  - eapply walk_next; [reflexivity|lia|]. apply walk_fail. reflexivity.
  - simpl. lia.
Defined.

(** X7.  [AssignedTo] with a repository lists the issues of that
    repository filtered by assignee on the remote side, keeps every one
    with a label list and, unlike the search, returns nothing but the
    error when a page fails. *)
Theorem AssignedTo_repository
    (client : Client) (fuel : nat) (owner repo login : string)
    (ps : list (Z * list Issue)) (o : option (Z * error)) :
  repo <> "*" ->
  PageWalk (Issues_ListByRepo client owner repo login) 0 ps o ->
  (length (pagesAsked ps o) <= fuel)%nat ->
  AssignedTo client fuel owner repo login =
    Some (match o with
          | Some (_, err) => ([], Some err)
          | None =>
              (List.filter (fun issue => bool_decide (Issue_Labels issue <> None))
                           (itemsServed ps), None)
          end,
          map (ReqIssuesListByRepo owner repo login) (pagesAsked ps o)).
Proof.
  intros Hrepo Hwalk Hfuel. unfold AssignedTo.
  apply String.eqb_neq in Hrepo. rewrite Hrepo.
  assert (Hload : loadIssuesForRepo client fuel owner repo login =
                  Some ((itemsServed ps, option_map snd o),
                        map (ReqIssuesListByRepo owner repo login) (pagesAsked ps o))).
  { unfold loadIssuesForRepo. by rewrite (paginate_walk _ _ _ _ _ Hwalk fuel []). }
  rewrite (makeIssueList_eq _ _ _ _ _ any _ _ _ Hload).
  destruct o as [[k err]|]; [done|]. simpl. do 3 f_equal.
  apply filter_ext. intros issue. by destruct (Issue_Labels issue).
Qed.

Lemma AssignedTo_repository_witness :
  AssignedTo Sample.labelledIssues 1 "org" "repo" "ann" =
    Some ((List.filter (fun issue => bool_decide (Issue_Labels issue <> None))
             (itemsServed
                [(0, [Sample.issue 1 ["Sprint 12"; "bug"]; Sample.issue 2 ["Done"];
                      {| Issue_Number := 3; Issue_Labels := None |};
                      Sample.issue 4 []; Sample.issue 5 ["In Progress"]])]), None),
          map (ReqIssuesListByRepo "org" "repo" "ann")
              (pagesAsked
                 [(0, [Sample.issue 1 ["Sprint 12"; "bug"]; Sample.issue 2 ["Done"];
                       {| Issue_Number := 3; Issue_Labels := None |};
                       Sample.issue 4 []; Sample.issue 5 ["In Progress"]])] None)).
Proof.
  apply (AssignedTo_repository Sample.labelledIssues 1 "org" "repo" "ann"
           [(0, [Sample.issue 1 ["Sprint 12"; "bug"]; Sample.issue 2 ["Done"];
                 {| Issue_Number := 3; Issue_Labels := None |};
                 Sample.issue 4 []; Sample.issue 5 ["In Progress"]])] None).
  - discriminate.
  - apply walk_last. reflexivity.
  - simpl. lia.
Defined.

(* ------------------------------------------------------------------ *)
(** ** More on the page loops *)

(** X8.  [loadCommitsForRepo] and [loadPRsForRepo] are page loops like
    the others.  The first asks for the commits since the time limit and
    makes no use of its [committer] argument; the second asks for the
    pull requests in state "open". *)
Theorem commits_and_open_prs_are_paginated
    (client : Client) (fuel : nat) (owner repo committer : string) (timeLimit : time.Time)
    (cps : list (Z * list RepositoryCommit)) (co : option (Z * error))
    (pps : list (Z * list PullRequest)) (po : option (Z * error)) :
  PageWalk (Repositories_ListCommits client owner repo timeLimit) 0 cps co ->
  (length (pagesAsked cps co) <= fuel)%nat ->
  PageWalk (PullRequests_List client owner repo "open") 0 pps po ->
  (length (pagesAsked pps po) <= fuel)%nat ->
  loadCommitsForRepo client fuel owner repo committer timeLimit =
    Some ((itemsServed cps, option_map snd co),
          map (ReqListCommits owner repo timeLimit) (pagesAsked cps co)) /\
  loadPRsForRepo client fuel owner repo =
    Some ((itemsServed pps, option_map snd po),
          map (ReqPullRequestsList owner repo "open") (pagesAsked pps po)).
Proof.
  intros Hc Hcfuel Hp Hpfuel. unfold loadCommitsForRepo, loadPRsForRepo. split.
  - by rewrite (paginate_walk _ _ _ _ _ Hc fuel []).
  - by rewrite (paginate_walk _ _ _ _ _ Hp fuel []).
Qed.

Lemma commits_and_open_prs_are_paginated_witness :
  loadCommitsForRepo Sample.branchFails 2 "org" "repo" "ann" 0 =
    Some ((itemsServed [(0, [Sample.commit "A" ["p"]; Sample.commit "C" ["A"]])],
           option_map snd (Some (2, "503 Service Unavailable"))),
          map (ReqListCommits "org" "repo" 0)
              (pagesAsked [(0, [Sample.commit "A" ["p"]; Sample.commit "C" ["A"]])]
                          (Some (2, "503 Service Unavailable")))) /\
  loadPRsForRepo Sample.branchFails 2 "org" "repo" =
    Some ((itemsServed [(0, [Sample.prAt 1 2 1])], None),
          map (ReqPullRequestsList "org" "repo" "open")
              (pagesAsked [(0, [Sample.prAt 1 2 1])] None)).
Proof.
  apply (commits_and_open_prs_are_paginated Sample.branchFails 2 "org" "repo" "ann" 0
           [(0, [Sample.commit "A" ["p"]; Sample.commit "C" ["A"]])]
           (Some (2, "503 Service Unavailable"))
           [(0, [Sample.prAt 1 2 1])] None).
  - eapply walk_next; [reflexivity|lia|]. apply walk_fail. reflexivity.
  - simpl. lia.
  - apply walk_last. reflexivity.
  - simpl. lia.
Defined.

Lemma paginate_endless {T} (fetch : Z -> Response T) req :
  (forall page, exists items next, fetch page = PageOf items next /\ next <> 0) ->
  forall fuel page all, paginate fetch req fuel page all = None.
Proof.
  intros Hmore. induction fuel as [|fuel IH]; intros page all; [done|].
  rewrite paginate_S. destruct (Hmore page) as (items & next & -> & Hnext).
  apply Z.eqb_neq in Hnext. by rewrite Hnext, IH.
Qed.

(** X9.  The page loops have no bound of their own: against a remote side
    that announces a further page after every page, the fetch of the
    repositories does not return, however many pages it may ask for, and
    neither does anything built on it. *)
Theorem endless_listing_never_returns
    (client : Client) (sort_Sort : SortFn) (now : time.Time) (owner committer : string)
    (lambda : RepositoryCommit -> list RepositoryCommit -> bool) (days daysPROpen : Z) :
  (forall page, exists items next,
      Repositories_ListByOrg client owner page = PageOf items next /\ next <> 0) ->
  forall fuel,
    loadReposForOrganization client fuel owner = None /\
    loadActiveReposForOrganization client sort_Sort fuel now owner days = None /\
    loadOpenPRsForOrganization client sort_Sort fuel now owner daysPROpen days = None /\
    makeCommitsList client sort_Sort fuel now owner "" committer lambda days = None.
Proof.
  intros Hmore fuel.
  assert (H1 : loadReposForOrganization client fuel owner = None)
    by (by apply paginate_endless).
  assert (H2 : loadActiveReposForOrganization client sort_Sort fuel now owner days = None)
    by (unfold loadActiveReposForOrganization; by rewrite H1).
  repeat split; [done|done| |].
  - unfold loadOpenPRsForOrganization. by rewrite H2.
  - unfold makeCommitsList. cbn [String.eqb]. by rewrite H2.
Qed.

Lemma endless_listing_never_returns_witness :
  loadReposForOrganization Sample.endless 50 "org" = None /\
  loadActiveReposForOrganization Sample.endless stableSort 50 Sample.now "org" 30 = None /\
  loadOpenPRsForOrganization Sample.endless stableSort 50 Sample.now "org" 5 30 = None /\
  makeCommitsList Sample.endless stableSort 50 Sample.now "org" "" "" isCommitInList 30 =
    None.
Proof.
  apply (endless_listing_never_returns Sample.endless stableSort Sample.now "org" ""
           isCommitInList 30 5).
  intros page. exists [Sample.repoAt "api" 1], (Z.abs page + 1).
  split; [reflexivity|lia].
Defined.

(* ------------------------------------------------------------------ *)
(** ** More on the open pull requests *)



Section OpenPRFacts.
Variable client : Client.
Variable fuel : nat.
Variable now : time.Time.
Variable owner : string.
Variable daysPROpen : Z.

Abbreviation served := (fun repo =>
  exists pullRequests t,
    loadPRsForRepo client fuel owner (Repository_Name repo) =
    Some ((pullRequests, None), t)).

Lemma openPRsOfRepos_cons repo rest allOpenPRs e :
  openPRsOfRepos client fuel now owner daysPROpen (repo :: rest) allOpenPRs e =
  match loadPRsForRepo client fuel owner (Repository_Name repo) with
  | None => None
  | Some ((_, Some err), t) => Some ((allOpenPRs, Some err), t)
  | Some ((pullRequests, None), t) =>
      match openPRsOfRepos client fuel now owner daysPROpen rest
              (addOpenPRs now daysPROpen pullRequests allOpenPRs) e with
      | Some (r, t') => Some (r, t ++ t')
      | None => None
      end
  end.
Proof.
  cbn [openPRsOfRepos].
  destruct (loadPRsForRepo client fuel owner (Repository_Name repo))
    as [[[prs [err|]] t]|]; cbn [bind ret]; [by rewrite app_nil_r|done|done].
Qed.

Lemma openPRsOfRepos_ok repos : forall allOpenPRs e,
  Forall served repos ->
  openPRsOfRepos client fuel now owner daysPROpen repos allOpenPRs e =
  Some ((allOpenPRs ++ flat_map (keptOpenPRs client fuel now owner daysPROpen) repos, e),
        openPRRequests client fuel owner repos).
Proof.
  induction repos as [|repo rest IH]; intros allOpenPRs e Hok.
  - simpl. by rewrite app_nil_r.
  - inversion Hok as [|? ? (prs & t & Hrepo) Hrest]; subst.
    rewrite openPRsOfRepos_cons, Hrepo, (IH _ _ Hrest), addOpenPRs_prefix.
    unfold openPRRequests, keptOpenPRs, openPRsServed. simpl. rewrite Hrepo. simpl.
    by rewrite <- app_assoc.
Qed.

Lemma openPRsOfRepos_fail rs1 : forall repo rs2 allOpenPRs e pullRequests err t,
  Forall served rs1 ->
  loadPRsForRepo client fuel owner (Repository_Name repo) =
    Some ((pullRequests, Some err), t) ->
  openPRsOfRepos client fuel now owner daysPROpen (rs1 ++ repo :: rs2) allOpenPRs e =
  Some ((allOpenPRs ++ flat_map (keptOpenPRs client fuel now owner daysPROpen) rs1,
         Some err),
        openPRRequests client fuel owner rs1 ++ t).
Proof.
  induction rs1 as [|r rs1 IH]; intros repo rs2 allOpenPRs e prs err t Hok Hfail.
  - simpl app. rewrite openPRsOfRepos_cons, Hfail. simpl. by rewrite app_nil_r.
  - inversion Hok as [|? ? (prs' & t' & Hr) Hrest]; subst.
    rewrite <- app_comm_cons, openPRsOfRepos_cons, Hr.
    rewrite (IH _ _ _ _ _ _ _ Hrest Hfail), addOpenPRs_prefix.
    unfold openPRRequests, keptOpenPRs, openPRsServed. simpl. rewrite Hr. simpl.
    by rewrite <- !app_assoc.
Qed.

End OpenPRFacts.

Lemma sorted_by_creation sort_Sort (l : list PullRequest) :
  SortContract sort_Sort ->
  SortedByCreation (sort_Sort _ PROpenDurationSorter_Less l).
Proof.
  intros Hsort.
  pose proof (sort_Sort_sorted _ Hsort _ PROpenDurationSorter_Less l
                PROpenDurationSorter_order) as Hsorted.
  unfold SortedByCreation. revert Hsorted.
  generalize (sort_Sort PullRequest PROpenDurationSorter_Less l).
  induction 1 as [|a l' _ IH Hall]; constructor; [done|].
  eapply Forall_impl; [exact Hall|]. intros b Hb.
  unfold NotAfter, PROpenDurationSorter_Less, time.Before in Hb.
  by apply Z.ltb_ge in Hb.
Qed.



Example open_prs_of_org :
  loadOpenPRsForOrganization Sample.openPRs stableSort 2 Sample.now "org" 5 30 =
  Some (([Sample.prAt 1 20 1; Sample.prAt 4 12 3; Sample.prAt 2 8 1], None),
        [ReqListByOrg "org" 0; ReqPullRequestsList "org" "api" "open" 0;
         ReqPullRequestsList "org" "docs" "open" 0]).
Proof. reflexivity. Qed.

(** X11.  When the fetch of a repository's open pull requests fails, the
    scan of the organisation ends there: the repositories after it are not
    asked about and the pull requests served by the failing fetch are
    dropped, but what was kept of the repositories before it is still
    returned, oldest first, together with the error. *)
Theorem open_prs_partial_on_failure
    (sort_Sort : SortFn) (client : Client) (fuel : nat) (now : time.Time)
    (owner : string) (daysPROpen daysSinceLastProjectActivity : Z)
    (rs1 rs2 : list Repository) (repo : Repository) (e0 : option error) (t0 t : Trace)
    (pullRequests : list PullRequest) (err : error) :
  SortContract sort_Sort ->
  loadActiveReposForOrganization client sort_Sort fuel now owner
    daysSinceLastProjectActivity = Some ((rs1 ++ repo :: rs2, e0), t0) ->
  Forall (fun r => exists prs t',
              loadPRsForRepo client fuel owner (Repository_Name r) =
              Some ((prs, None), t')) rs1 ->
  loadPRsForRepo client fuel owner (Repository_Name repo) =
    Some ((pullRequests, Some err), t) ->
  exists allOpenPRs,
    loadOpenPRsForOrganization client sort_Sort fuel now owner daysPROpen
      daysSinceLastProjectActivity =
      Some ((allOpenPRs, Some err), t0 ++ openPRRequests client fuel owner rs1 ++ t) /\
    Permutation allOpenPRs (flat_map (keptOpenPRs client fuel now owner daysPROpen) rs1) /\
    SortedByCreation allOpenPRs.
Proof.
  intros Hsort Hactive Hserved Hfail. eexists. split; [|split].
  - unfold loadOpenPRsForOrganization. rewrite Hactive. cbn [bind].
    rewrite (openPRsOfRepos_fail _ _ _ _ _ _ _ _ _ _ _ _ _ Hserved Hfail).
    cbn [bind ret app]. by rewrite app_nil_r.
  - apply (sort_Sort_perm _ Hsort).
  - by apply sorted_by_creation.
Qed.

Lemma open_prs_partial_on_failure_witness :
  exists allOpenPRs,
    loadOpenPRsForOrganization Sample.openPRs stableSort 2 Sample.now "big" 5 30 =
      Some ((allOpenPRs, Some "502 Bad Gateway"),
            [ReqListByOrg "big" 0] ++
            openPRRequests Sample.openPRs 2 "big"
              [Sample.repoAt "api" 1; Sample.repoAt "docs" 2] ++
            [ReqPullRequestsList "big" "web" "open" 0;
             ReqPullRequestsList "big" "web" "open" 2]) /\
    Permutation allOpenPRs
      (flat_map (keptOpenPRs Sample.openPRs 2 Sample.now "big" 5)
                [Sample.repoAt "api" 1; Sample.repoAt "docs" 2]) /\
    SortedByCreation allOpenPRs.
Proof.
  apply (open_prs_partial_on_failure stableSort Sample.openPRs 2 Sample.now "big" 5 30
           [Sample.repoAt "api" 1; Sample.repoAt "docs" 2] [Sample.repoAt "zeta" 1]
           (Sample.repoAt "web" 1) None [ReqListByOrg "big" 0]
           [ReqPullRequestsList "big" "web" "open" 0;
            ReqPullRequestsList "big" "web" "open" 2]
           [Sample.prAt 5 30 1] "502 Bad Gateway").
  - exact stableSort_contract.
  - reflexivity.
  - repeat constructor; do 2 eexists; vm_compute; reflexivity.
  - reflexivity.
Defined.

(* ------------------------------------------------------------------ *)
(** ** More on the direct commits *)

(** X12.  For any predicate [lambda] and whatever the two fetches
    returned: the commits [masterCommitsForSingleRepo] returns are never
    more than the total it returns, and each of them has at most one
    parent. *)
Theorem direct_commits_within_total
    (client : Client) (fuel : nat) (now : time.Time) (owner repo committer : string)
    (lambda : RepositoryCommit -> list RepositoryCommit -> bool) (days : Z)
    (masterCommits : list RepositoryCommit) (total : Z) (e : option error) (t : Trace) :
  masterCommitsForSingleRepo client fuel now owner repo committer lambda days =
    Some ((masterCommits, total, e), t) ->
  0 <= Z.of_nat (length masterCommits) <= total /\
  Forall (fun commit => (length (Parents commit) <= 1)%nat) masterCommits.
Proof.
  destruct (loadCommitsForRepo client fuel owner repo committer
              (time.AddDate now 0 0 (- days))) as [[[commits e1] t1]|] eqn:H1.
  - destruct (loadCommitsFromAllRepoPRs client fuel owner repo
                (time.AddDate now 0 0 (- days))) as [[[pool e2] t2]|] eqn:H2.
    + rewrite (masterCommitsForSingleRepo_eq _ _ _ _ _ _ lambda _ _ _ _ _ _ _ H1 H2).
      destruct e2 as [err|]; intros [= <- <- <- <-].
      * simpl. split; [lia|constructor].
      * split.
        -- unfold keepMasterCommits.
           pose proof (filter_length_le
             (fun commit => (Z.of_nat (length (Parents commit)) <=? 1) &&
                            negb (lambda commit pool)) commits). lia.
        -- apply List.Forall_forall. intros commit Hin.
           by apply keepMasterCommits_In in Hin as (_ & Hparents & _).
    + unfold masterCommitsForSingleRepo. rewrite H1. cbn [bind]. by rewrite H2.
  - unfold masterCommitsForSingleRepo. by rewrite H1.
Qed.

Lemma direct_commits_within_total_witness :
  0 <= Z.of_nat (length [Sample.commit "A" ["p"]]) <= 3 /\
  Forall (fun commit => (length (Parents commit) <= 1)%nat) [Sample.commit "A" ["p"]].
Proof.
  apply (direct_commits_within_total Sample.branchABC 2 Sample.now "org" "repo" ""
           isCommitInList 30 [Sample.commit "A" ["p"]] 3 None
           [ReqListCommits "org" "repo" (time.AddDate Sample.now 0 0 (- 30)) 0;
            ReqPullRequestsList "org" "repo" "open,closed" 0;
            ReqPullRequestsListCommits "org" "repo" 1 0]).
  reflexivity.
Defined.

(** X13.  When no pull request on the pages listed is older than the time
    limit and the listing ends, [loadCommitsFromAllRepoPRs] has asked for
    every page of the listing and for the first page of commits of every
    pull request, in the order listed, and the pool holds those commits in
    that order. *)
Theorem pr_commits_pool_of_full_walk
    (client : Client) (fuel : nat) (owner repo : string) (timeLimit : time.Time)
    (ps : list (Z * list PullRequest)) (q : Z) (prs : list PullRequest) :
  FreshPages (PullRequests_List client owner repo "open,closed") timeLimit 0 ps q ->
  PullRequests_List client owner repo "open,closed" q = PageOf prs 0 ->
  Forall (fun pr => olderThan timeLimit pr = false) prs ->
  (length ps < fuel)%nat ->
  loadCommitsFromAllRepoPRs client fuel owner repo timeLimit =
    Some ((flat_map (firstPageCommits client owner repo) (itemsServed ps ++ prs),
           lastError client owner repo (itemsServed ps ++ prs) None),
          pageRequests owner repo (ps ++ [(q, prs)])).
Proof.
  intros Hps Hq Hfresh Hfuel. unfold loadCommitsFromAllRepoPRs.
  replace fuel with (length ps + S (fuel - S (length ps)))%nat by lia.
  rewrite (walkPullRequestPages_fresh _ _ _ _ _ _ _ Hps).
  rewrite walkPullRequestPages_S, Hq, walkPullRequests_fresh by done.
  cbn [Z.eqb orb app]. rewrite flat_map_app, lastError_app.
  unfold pageRequests at 2. rewrite flat_map_app. simpl. by rewrite app_nil_r.
Qed.

Lemma pr_commits_pool_of_full_walk_witness :
  loadCommitsFromAllRepoPRs Sample.prCommitsFail 1 "org" "repo" (Sample.now - 30 * Sample.day) =
    Some ((flat_map (firstPageCommits Sample.prCommitsFail "org" "repo")
             (itemsServed [] ++ [Sample.prAt 1 2 1; Sample.prAt 2 3 2]),
           lastError Sample.prCommitsFail "org" "repo"
             (itemsServed [] ++ [Sample.prAt 1 2 1; Sample.prAt 2 3 2]) None),
          pageRequests "org" "repo" ([] ++ [(0, [Sample.prAt 1 2 1; Sample.prAt 2 3 2])])).
Proof.
  apply (pr_commits_pool_of_full_walk Sample.prCommitsFail 1 "org" "repo"
           (Sample.now - 30 * Sample.day) [] 0 [Sample.prAt 1 2 1; Sample.prAt 2 3 2]).
  - apply fresh_done.
  - reflexivity.
  - repeat constructor.
  - simpl. lia.
Defined.

(** X14.  When the listing of the pull requests fails at a page, the walk
    ends with that error, whatever was recorded before, and returns the
    pool gathered from the pages before it; [masterCommitsForSingleRepo]
    then returns the error and no commits. *)
Theorem pr_listing_failure_ends_walk
    (client : Client) (fuel : nat) (now : time.Time) (owner repo committer : string)
    (lambda : RepositoryCommit -> list RepositoryCommit -> bool) (days : Z)
    (ps : list (Z * list PullRequest)) (q : Z) (err : error)
    (commits : list RepositoryCommit) (e1 : option error) (t1 : Trace) :
  FreshPages (PullRequests_List client owner repo "open,closed")
             (time.AddDate now 0 0 (- days)) 0 ps q ->
  PullRequests_List client owner repo "open,closed" q = Failure err ->
  (length ps < fuel)%nat ->
  loadCommitsForRepo client fuel owner repo committer (time.AddDate now 0 0 (- days)) =
    Some ((commits, e1), t1) ->
  loadCommitsFromAllRepoPRs client fuel owner repo (time.AddDate now 0 0 (- days)) =
    Some ((flat_map (firstPageCommits client owner repo) (itemsServed ps), Some err),
          pageRequests owner repo ps ++ [ReqPullRequestsList owner repo "open,closed" q]) /\
  masterCommitsForSingleRepo client fuel now owner repo committer lambda days =
    Some (([], 0, Some err),
          t1 ++ pageRequests owner repo ps ++
          [ReqPullRequestsList owner repo "open,closed" q]).
Proof.
  intros Hps Hq Hfuel Hcommits.
  assert (Hprs :
    loadCommitsFromAllRepoPRs client fuel owner repo (time.AddDate now 0 0 (- days)) =
    Some ((flat_map (firstPageCommits client owner repo) (itemsServed ps), Some err),
          pageRequests owner repo ps ++ [ReqPullRequestsList owner repo "open,closed" q])).
  { unfold loadCommitsFromAllRepoPRs.
    replace fuel with (length ps + S (fuel - S (length ps)))%nat by lia.
    rewrite (walkPullRequestPages_fresh _ _ _ _ _ _ _ Hps).
    by rewrite walkPullRequestPages_S, Hq. }
  split; [exact Hprs|].
  by rewrite (masterCommitsForSingleRepo_eq _ _ _ _ _ _ lambda _ _ _ _ _ _ _ Hcommits Hprs).
Qed.

Lemma pr_listing_failure_ends_walk_witness :
  loadCommitsFromAllRepoPRs Sample.threeRepos 1 "org" "web"
    (time.AddDate Sample.now 0 0 (- 30)) =
    Some ((flat_map (firstPageCommits Sample.threeRepos "org" "web") (itemsServed []),
           Some "500 Internal Server Error"),
          pageRequests "org" "web" [] ++ [ReqPullRequestsList "org" "web" "open,closed" 0]) /\
  masterCommitsForSingleRepo Sample.threeRepos 1 Sample.now "org" "web" "" isCommitInList 30 =
    Some (([], 0, Some "500 Internal Server Error"),
          [ReqListCommits "org" "web" (time.AddDate Sample.now 0 0 (- 30)) 0] ++
          pageRequests "org" "web" [] ++
          [ReqPullRequestsList "org" "web" "open,closed" 0]).
Proof.
  apply (pr_listing_failure_ends_walk Sample.threeRepos 1 Sample.now "org" "web" ""
           isCommitInList 30 [] 0 "500 Internal Server Error"
           [Sample.commit "C" ["A"]] None).
  - apply fresh_done.
  - reflexivity.
  - simpl. lia.
  - reflexivity.
Defined.

(* ------------------------------------------------------------------ *)
(** ** More on the commits of an organisation *)

(** X15.  In a scan of the whole organisation, a failure of the
    repository listing ends [makeCommitsList] at once: it returns the
    error with a nil map and count 0, and asks about no repository, not
    even those listed before the failure. *)
Theorem repository_listing_failure_aborts_scan
    (sort_Sort : SortFn) (client : Client) (fuel : nat) (now : time.Time)
    (owner committer : string)
    (lambda : RepositoryCommit -> list RepositoryCommit -> bool) (days : Z)
    (ps : list (Z * list Repository)) (k : Z) (err : error) :
  PageWalk (Repositories_ListByOrg client owner) 0 ps (Some (k, err)) ->
  (length ps < fuel)%nat ->
  makeCommitsList client sort_Sort fuel now owner "" committer lambda days =
    Some ((None, 0, Some err), map (ReqListByOrg owner) (map fst ps ++ [k])).
Proof.
  intros Hwalk Hfuel. unfold makeCommitsList, loadActiveReposForOrganization,
    loadReposForOrganization. cbn [String.eqb].
  rewrite (paginate_walk _ _ _ _ _ Hwalk fuel []).
  - cbn [bind ret option_map snd]. unfold pagesAsked. by rewrite !app_nil_r.
  - unfold pagesAsked. rewrite length_app, length_map. simpl. lia.
Qed.

Lemma repository_listing_failure_aborts_scan_witness :
  makeCommitsList Sample.listingFails stableSort 2 Sample.now "org" "" "" isCommitInList 30 =
    Some ((None, 0, Some "401 Unauthorized"),
          map (ReqListByOrg "org") (map fst [(0, [Sample.repoAt "api" 1])] ++ [4])).
Proof.
  apply (repository_listing_failure_aborts_scan stableSort Sample.listingFails 2 Sample.now
           "org" "" isCommitInList 30 [(0, [Sample.repoAt "api" 1])] 4 "401 Unauthorized").
  - eapply walk_next; [reflexivity|lia|]. apply walk_fail. reflexivity.
  - simpl. lia.
Defined.

(** X16.  The open pull requests are scanned all the same when the
    repository listing fails: the repositories listed before the failure
    are filtered and asked for their pull requests, and the error of the
    listing is returned with the result. *)
Theorem open_prs_scanned_despite_listing_failure
    (sort_Sort : SortFn) (client : Client) (fuel : nat) (now : time.Time)
    (owner : string) (daysPROpen daysSinceLastProjectActivity : Z)
    (ps : list (Z * list Repository)) (k : Z) (err : error) :
  SortContract sort_Sort ->
  PageWalk (Repositories_ListByOrg client owner) 0 ps (Some (k, err)) ->
  (length ps < fuel)%nat ->
  Forall (fun repo => exists pullRequests t,
              loadPRsForRepo client fuel owner (Repository_Name repo) =
              Some ((pullRequests, None), t)) (itemsServed ps) ->
  exists activeRepos allOpenPRs,
    Permutation activeRepos
      (List.filter (isActive now daysSinceLastProjectActivity) (itemsServed ps)) /\
    loadOpenPRsForOrganization client sort_Sort fuel now owner daysPROpen
      daysSinceLastProjectActivity =
      Some ((allOpenPRs, Some err),
            map (ReqListByOrg owner) (map fst ps ++ [k]) ++
            openPRRequests client fuel owner activeRepos) /\
    Permutation allOpenPRs
      (flat_map (keptOpenPRs client fuel now owner daysPROpen) activeRepos).
Proof.
  intros Hsort Hwalk Hfuel Hserved.
  assert (Hload : loadReposForOrganization client fuel owner =
                  Some ((itemsServed ps, Some err),
                        map (ReqListByOrg owner) (map fst ps ++ [k]))).
  { unfold loadReposForOrganization.
    rewrite (paginate_walk _ _ _ _ _ Hwalk fuel []); [done|].
    unfold pagesAsked. rewrite length_app, length_map. simpl. lia. }
  set (activeRepos := sort_Sort _ RepositoryNameSorter_Less
         (List.filter (isActive now daysSinceLastProjectActivity) (itemsServed ps))).
  assert (Hperm : Permutation activeRepos
            (List.filter (isActive now daysSinceLastProjectActivity) (itemsServed ps)))
    by apply (sort_Sort_perm _ Hsort).
  assert (Hactive : Forall (fun repo => exists pullRequests t,
              loadPRsForRepo client fuel owner (Repository_Name repo) =
              Some ((pullRequests, None), t)) activeRepos).
  { apply List.Forall_forall. intros repo Hin.
    apply (Permutation_in _ Hperm), filter_In in Hin as [Hin _].
    rewrite List.Forall_forall in Hserved. by apply Hserved. }
  exists activeRepos. eexists. split; [exact Hperm|]. split.
  - unfold loadOpenPRsForOrganization, loadActiveReposForOrganization.
    rewrite Hload. cbn [bind ret]. fold activeRepos.
    rewrite (openPRsOfRepos_ok _ _ _ _ _ _ _ _ Hactive). cbn [bind ret app].
    by rewrite !app_nil_r.
  - apply (sort_Sort_perm _ Hsort).
Qed.

Lemma open_prs_scanned_despite_listing_failure_witness :
  exists activeRepos allOpenPRs,
    Permutation activeRepos
      (List.filter (isActive Sample.now 30) (itemsServed [(0, [Sample.repoAt "api" 1])])) /\
    loadOpenPRsForOrganization Sample.listingFails stableSort 2 Sample.now "org" 5 30 =
      Some ((allOpenPRs, Some "401 Unauthorized"),
            map (ReqListByOrg "org") (map fst [(0, [Sample.repoAt "api" 1])] ++ [4]) ++
            openPRRequests Sample.listingFails 2 "org" activeRepos) /\
    Permutation allOpenPRs
      (flat_map (keptOpenPRs Sample.listingFails 2 Sample.now "org" 5) activeRepos).
Proof.
  apply (open_prs_scanned_despite_listing_failure stableSort Sample.listingFails 2
           Sample.now "org" 5 30 [(0, [Sample.repoAt "api" 1])] 4 "401 Unauthorized").
  - exact stableSort_contract.
  - eapply walk_next; [reflexivity|lia|]. apply walk_fail. reflexivity.
  - simpl. lia.
  - repeat constructor; do 2 eexists; vm_compute; reflexivity.
Defined.

(** X17.  For a single repository ([repo] not empty), [makeCommitsList]
    lists no repositories and returns a map with one entry, that of
    [repo], even when the repository has no direct commit; the count is
    the number of its branch commits.  An error of the aggregation is
    returned with a nil map and count 0. *)
Theorem single_repository_always_has_an_entry
    (sort_Sort : SortFn) (client : Client) (fuel : nat) (now : time.Time)
    (owner repo committer : string)
    (lambda : RepositoryCommit -> list RepositoryCommit -> bool) (days : Z)
    (masterCommits : list RepositoryCommit) (totalRepoCommits : Z)
    (e : option error) (t : Trace) :
  repo <> "" ->
  masterCommitsForSingleRepo client fuel now owner repo committer lambda days =
    Some ((masterCommits, totalRepoCommits, e), t) ->
  exists result,
    makeCommitsList client sort_Sort fuel now owner repo committer lambda days =
      Some (result, t) /\
    match e with
    | Some err => result = (None, 0, Some err)
    | None =>
        exists m, result = (Some m, totalRepoCommits, None) /\
                  m !! repo = Some masterCommits /\
                  forall name, name <> repo -> m !! name = None
    end.
Proof.
  intros Hrepo Hmaster. unfold makeCommitsList.
  apply String.eqb_neq in Hrepo. rewrite Hrepo, Hmaster. cbn [bind].
  destruct e as [err|]; cbn [ret]; rewrite app_nil_r; eexists; (split; [reflexivity|]).
  - reflexivity.
  - eexists. split; [reflexivity|]. split.
    + apply lookup_insert_eq.
    + intros name Hname. by rewrite lookup_insert_ne, lookup_empty.
Qed.

Lemma single_repository_always_has_an_entry_witness :
  exists result,
    makeCommitsList Sample.threeRepos stableSort 2 Sample.now "org" "docs" ""
      isCommitInList 30 =
      Some (result,
            [ReqListCommits "org" "docs" (time.AddDate Sample.now 0 0 (- 30)) 0;
             ReqPullRequestsList "org" "docs" "open,closed" 0;
             ReqPullRequestsListCommits "org" "docs" 1 0]) /\
    exists m, result = (Some m, 1, None) /\
              m !! "docs" = Some [] /\
              forall name, name <> "docs" -> m !! name = None.
Proof.
  apply (single_repository_always_has_an_entry stableSort Sample.threeRepos 2 Sample.now
           "org" "docs" "" isCommitInList 30 [] 1 None).
  - discriminate.
  - reflexivity.
Defined.

Lemma commitsOfRepos_total client fuel now owner committer lambda days rs :
  forall m total,
    Forall (fun r => exists mc k t',
                masterCommitsForSingleRepo client fuel now owner (Repository_Name r)
                  committer lambda days = Some ((mc, k, None), t')) rs ->
    commitsOfRepos client fuel now owner committer lambda days rs m total =
    Some ((Some (foldl (addRepository client fuel now owner committer lambda days) m rs),
           total + countedCommits client fuel now owner committer lambda days rs, None),
          scanRequests client fuel now owner committer lambda days rs).
Proof.
  induction rs as [|r rs IH]; intros m total Hok.
  - simpl. by rewrite Z.add_0_r.
  - inversion Hok as [|? ? (mc & k & t' & Hr) Hrest]; subst.
    rewrite commitsOfRepos_cons, Hr, (IH _ _ Hrest).
    assert (Hcount :
      countedCommits client fuel now owner committer lambda days (r :: rs) =
      match mc with [] => 0 | _ => k end +
      countedCommits client fuel now owner committer lambda days rs).
    { unfold countedCommits at 1. cbn [fold_right]. unfold countedCommitsOf at 1.
      rewrite Hr. by destruct mc. }
    assert (Hreqs :
      scanRequests client fuel now owner committer lambda days (r :: rs) =
      t' ++ scanRequests client fuel now owner committer lambda days rs).
    { unfold scanRequests. cbn [flat_map]. by rewrite Hr. }
    rewrite Hcount, Hreqs. cbn [foldl]. do 4 f_equal. destruct mc; lia.
Qed.

(** X18.  The count returned by a scan of the whole organisation that
    succeeds is the number of branch commits of the repositories that have
    direct commits: a repository all of whose commits are merges or came
    through pull requests adds nothing to it. *)
Theorem organisation_total_counts_only_listed_repositories
    (sort_Sort : SortFn) (client : Client) (fuel : nat) (now : time.Time)
    (owner committer : string)
    (lambda : RepositoryCommit -> list RepositoryCommit -> bool) (days : Z)
    (repositories : list Repository) (t0 : Trace) :
  loadActiveReposForOrganization client sort_Sort fuel now owner days =
    Some ((repositories, None), t0) ->
  Forall (fun r => exists mc k t',
              masterCommitsForSingleRepo client fuel now owner (Repository_Name r)
                committer lambda days = Some ((mc, k, None), t')) repositories ->
  exists m,
    makeCommitsList client sort_Sort fuel now owner "" committer lambda days =
      Some ((Some m, countedCommits client fuel now owner committer lambda days repositories,
             None),
            t0 ++ scanRequests client fuel now owner committer lambda days repositories).
Proof.
  intros Hactive Hok. eexists. unfold makeCommitsList. cbn [String.eqb].
  rewrite Hactive. cbn [bind]. by rewrite (commitsOfRepos_total _ _ _ _ _ _ _ _ _ _ Hok).
Qed.

Lemma organisation_total_counts_only_listed_repositories_witness :
  exists m,
    makeCommitsList Sample.threeRepos stableSort 2 Sample.now "org" "" "" isCommitInList 30 =
      Some ((Some m,
             countedCommits Sample.threeRepos 2 Sample.now "org" "" isCommitInList 30
               [Sample.repoAt "api" 1; Sample.repoAt "docs" 2], None),
            [ReqListByOrg "org" 0] ++
            scanRequests Sample.threeRepos 2 Sample.now "org" "" isCommitInList 30
              [Sample.repoAt "api" 1; Sample.repoAt "docs" 2]).
Proof.
  apply (organisation_total_counts_only_listed_repositories stableSort Sample.threeRepos 2
           Sample.now "org" "" isCommitInList 30
           [Sample.repoAt "api" 1; Sample.repoAt "docs" 2] [ReqListByOrg "org" 0]).
  - reflexivity.
  - repeat constructor; do 3 eexists; vm_compute; reflexivity.
Defined.

Example organisation_total_of_org :
  countedCommits Sample.threeRepos 2 Sample.now "org" "" isCommitInList 30
    [Sample.repoAt "api" 1; Sample.repoAt "docs" 2] = 2 /\
  countedCommitsOf Sample.threeRepos 2 Sample.now "org" "" isCommitInList 30
    (Sample.repoAt "docs" 2) = 0.
Proof. split; reflexivity. Qed.

(* ------------------------------------------------------------------ *)
(** ** Letter case of labels *)

Lemma labelString_lower labels1 : forall labels2 retval,
  map (fun label => strings.ToLower (Label_Name label)) labels1 =
  map (fun label => strings.ToLower (Label_Name label)) labels2 ->
  labelString labels1 retval = labelString labels2 retval.
Proof.
  induction labels1 as [|l1 rest1 IH]; intros [|l2 rest2] retval Heq;
    try discriminate; [done|].
  injection Heq as Hname Hrest. cbn [labelString]. rewrite Hname. by apply IH.
Qed.

(** X19.  The label rules do not see the letter case of labels: two
    issues whose labels have, one by one, the same lowercased names get
    the same answer from every rule. *)
Theorem label_rules_ignore_case (issue1 issue2 : Issue) :
  map (fun label => strings.ToLower (Label_Name label))
      (default [] (Issue_Labels issue1)) =
  map (fun label => strings.ToLower (Label_Name label))
      (default [] (Issue_Labels issue2)) ->
  isSprintItem issue1 = isSprintItem issue2 /\
  isInProgress issue1 = isInProgress issue2 /\
  isReadyForQA issue1 = isReadyForQA issue2 /\
  isQAPass issue1 = isQAPass issue2 /\
  isDone issue1 = isDone issue2 /\
  isBacklogItem issue1 = isBacklogItem issue2 /\
  isReadyForReview issue1 = isReadyForReview issue2 /\
  isProductBacklogItem issue1 = isProductBacklogItem issue2.
Proof.
  intros Heq.
  assert (H : getLabelString (Issue_Labels issue1) = getLabelString (Issue_Labels issue2))
    by (unfold getLabelString; by apply labelString_lower).
  unfold isBacklogItem, isSprintItem, isInProgress, isReadyForQA, isQAPass, isDone,
    isReadyForReview, isProductBacklogItem.
  rewrite H. repeat split; reflexivity.
Qed.

Lemma label_rules_ignore_case_witness :
  isSprintItem (Sample.issue 1 ["SPRINT 12"; "Bug"]) =
    isSprintItem (Sample.issue 2 ["sprint 12"; "bUG"]) /\
  isInProgress (Sample.issue 1 ["SPRINT 12"; "Bug"]) =
    isInProgress (Sample.issue 2 ["sprint 12"; "bUG"]) /\
  isReadyForQA (Sample.issue 1 ["SPRINT 12"; "Bug"]) =
    isReadyForQA (Sample.issue 2 ["sprint 12"; "bUG"]) /\
  isQAPass (Sample.issue 1 ["SPRINT 12"; "Bug"]) =
    isQAPass (Sample.issue 2 ["sprint 12"; "bUG"]) /\
  isDone (Sample.issue 1 ["SPRINT 12"; "Bug"]) =
    isDone (Sample.issue 2 ["sprint 12"; "bUG"]) /\
  isBacklogItem (Sample.issue 1 ["SPRINT 12"; "Bug"]) =
    isBacklogItem (Sample.issue 2 ["sprint 12"; "bUG"]) /\
  isReadyForReview (Sample.issue 1 ["SPRINT 12"; "Bug"]) =
    isReadyForReview (Sample.issue 2 ["sprint 12"; "bUG"]) /\
  isProductBacklogItem (Sample.issue 1 ["SPRINT 12"; "Bug"]) =
    isProductBacklogItem (Sample.issue 2 ["sprint 12"; "bUG"]).
Proof.
  apply (label_rules_ignore_case (Sample.issue 1 ["SPRINT 12"; "Bug"])
           (Sample.issue 2 ["sprint 12"; "bUG"])).
  reflexivity.
Defined.
